(** * Audio level analyzer: measurement, classification, batch analysis
      and corrective gain

    A shallow embedding of [audio_level_analyzer.py].

    Conventions of the embedding.
    - In the program a decibel value (a Python [float]) is the rational
      number it denotes: comparisons against the integer thresholds are
      exact. The part [Host] follows the correction engine with floats
      that are IEEE doubles: the subtraction [value - mean] is rounded,
      and a correction value can be an infinity or NaN.
    - Text is a Python [str], held as the [string] of its UTF-8 bytes.
      The regular-expression classes [\s] and [\d] are the Unicode ones
      of [re] on [str] patterns and work on the decoded code points.
    - Paths are parsed and printed as [pathlib.PurePosixPath] does.
    - The outside world (file system, the external [ffmpeg] process, the
      order in which pool workers finish) is a record of oracles, [World].
    - A computation that performs I/O or may raise is a value of [M A]:
      the trace of events it emitted together with either the exception
      it raised or the value it returned.
    - In the program the file-system queries ([exists], [is_file],
      [is_dir], [glob]) answer and do not raise; creating the output
      folder and writing a report are events that succeed. The part
      [Host] lets [exists] and [mkdir] fail. The blocks of [print] calls
      are one event each; the report writers are one event each.
    - [pathlib] matches glob patterns as on POSIX, case-sensitively. *)

From Stdlib Require Import List Bool Arith ZArith QArith Lia Lqa.
From Stdlib Require Import Ascii String DecimalString Qabs Qround Qpower.
From Stdlib Require Import Permutation Sorted OrderedTypeEx.
Import ListNotations.

Local Open Scope string_scope.
Local Open Scope list_scope.

(** ** Decibel values *)

(** [x < y] on floats, as a boolean. *)
Definition Qltb (x y : Q) : bool := negb (Qle_bool y x).

(** *** Rounding to a double

    The arithmetic of Python's [float] is that of IEEE 754 binary64: the
    result of an operation is the exact result rounded to the nearest
    double, ties to the double with an even significand. *)

(** The exponent of the binade of [x]: [floor (log2 |x|)], for [x]
    other than zero. *)
Definition ilog2 (x : Q) : Z :=
  let e := (Z.log2 (Z.abs (Qnum x)) - Z.log2 (Z.pos (Qden x)))%Z in
  if Qle_bool (2 ^ e) (Qabs x) then e else (e - 1)%Z.

(** The distance between the doubles around [x]: 53 significant bits
    from the exponent of [x] down, and the fixed step [2^-1074] below
    the smallest normal number [2^-1022]. *)
Definition quantum (x : Q) : Q := 2 ^ (Z.max (ilog2 x) (-1022) - 52).

(** The nearest integer, the even one of two that are equally near. *)
Definition round_half_even (y : Q) : Z :=
  let f := Qfloor y in
  let r := (y - inject_Z f)%Q in
  if Qltb r (1 # 2) then f
  else if Qltb (1 # 2) r then (f + 1)%Z
  else if Z.even f then f else (f + 1)%Z.

(** The double nearest to [x], as a fraction in lowest terms. Beyond the
    largest double IEEE 754 answers an infinity; [overflows] tells when. *)
Definition round_double (x : Q) : Q :=
  Qred (inject_Z (round_half_even (x / quantum x)) * quantum x).

Definition overflows (x : Q) : bool :=
  Qle_bool (2 ^ 1024) (Qabs (round_double x)).

(** [a - b] on floats, when it does not overflow. *)
Definition double_sub (a b : Q) : Q := round_double (a - b).

(** ** Classifier *)

(** The dictionary returned by [classify_level]. *)
Record Level : Type := mkLevel {
  label : string;
  color : string;
  emoji : string
}.

Definition classify_level (mean_db : Q) : Level :=
  if Qltb mean_db (-50) then
    {| label := "TRÈS BAS"; color := "#ef4444"; emoji := "🔇" |}
  else if Qltb mean_db (-42) then
    {| label := "BAS"; color := "#f97316"; emoji := "🔈" |}
  else if Qltb mean_db (-36) then
    {| label := "MOYEN-"; color := "#eab308"; emoji := "🔉" |}
  else if Qltb mean_db (-30) then
    {| label := "MOYEN"; color := "#22c55e"; emoji := "🔊" |}
  else if Qltb mean_db (-24) then
    {| label := "MOYEN+"; color := "#10b981"; emoji := "🔊" |}
  else
    {| label := "ÉLEVÉ"; color := "#3b82f6"; emoji := "📢" |}.

(** The six bands, in ascending order, and the label of each. *)
Inductive Band : Type :=
  | TresBas | Bas | MoyenMoins | Moyen | MoyenPlus | Eleve.

Definition band_label (b : Band) : string :=
  match b with
  | TresBas => "TRÈS BAS"
  | Bas => "BAS"
  | MoyenMoins => "MOYEN-"
  | Moyen => "MOYEN"
  | MoyenPlus => "MOYEN+"
  | Eleve => "ÉLEVÉ"
  end.

Definition band_rank (b : Band) : nat :=
  match b with
  | TresBas => 0
  | Bas => 1
  | MoyenMoins => 2
  | Moyen => 3
  | MoyenPlus => 4
  | Eleve => 5
  end.

Definition all_bands : list Band :=
  [TresBas; Bas; MoyenMoins; Moyen; MoyenPlus; Eleve].

(** The band a returned dictionary stands for, read off its label. *)
Definition band_of_label (l : string) : option Band :=
  find (fun b => String.eqb (band_label b) l) all_bands.

Definition band_of (lv : Level) : option Band := band_of_label (label lv).

(** The half-open interval of each band. *)
Definition in_band (b : Band) (x : Q) : Prop :=
  match b with
  | TresBas => (x < -50)%Q
  | Bas => (-50 <= x)%Q /\ (x < -42)%Q
  | MoyenMoins => (-42 <= x)%Q /\ (x < -36)%Q
  | Moyen => (-36 <= x)%Q /\ (x < -30)%Q
  | MoyenPlus => (-30 <= x)%Q /\ (x < -24)%Q
  | Eleve => (-24 <= x)%Q
  end.


(** ** Characters and text

    A Python [str] is held as the [string] of its UTF-8 bytes; the
    functions that look at characters decode it into code points. *)

Definition code (c : ascii) : nat := nat_of_ascii c.

(** One of the ten ASCII digits. *)
Definition ascii_digit (c : ascii) : bool :=
  let n := code c in ((48 <=? n) && (n <=? 57))%nat.

Fixpoint take_while (p : ascii -> bool) (s : string) : string :=
  match s with
  | EmptyString => EmptyString
  | String c s' => if p c then String c (take_while p s') else EmptyString
  end.

Fixpoint drop_while (p : ascii -> bool) (s : string) : string :=
  match s with
  | EmptyString => EmptyString
  | String c s' => if p c then drop_while p s' else s
  end.

Fixpoint strip_prefix (p s : string) : option string :=
  match p with
  | EmptyString => Some s
  | String a p' =>
      match s with
      | EmptyString => None
      | String b s' => if Ascii.eqb a b then strip_prefix p' s' else None
      end
  end.

Definition starts_with (p s : string) : bool :=
  match strip_prefix p s with Some _ => true | None => false end.

(** [s.endswith(suf)] *)
Fixpoint ends_with (suf s : string) : bool :=
  String.eqb suf s ||
  match s with
  | EmptyString => false
  | String _ s' => ends_with suf s'
  end.

Definition upper_char (c : ascii) : ascii :=
  let n := code c in
  if ((97 <=? n) && (n <=? 122))%nat then ascii_of_nat (n - 32) else c.

(** [str.upper], for a text of ASCII characters. *)
Fixpoint upper (s : string) : string :=
  match s with
  | EmptyString => EmptyString
  | String c s' => String (upper_char c) (upper s')
  end.

Definition lower_char (c : ascii) : ascii :=
  let n := code c in
  if ((65 <=? n) && (n <=? 90))%nat then ascii_of_nat (n + 32) else c.

(** [str.lower], for a text of ASCII characters. *)
Fixpoint lower (s : string) : string :=
  match s with
  | EmptyString => EmptyString
  | String c s' => String (lower_char c) (lower s')
  end.

Fixpoint all_chars (p : ascii -> bool) (s : string) : bool :=
  match s with
  | EmptyString => true
  | String c s' => p c && all_chars p s'
  end.

(** *** Code points

    A character of a [str] is its code point. *)
Definition Char : Type := N.

Definition byte (c : ascii) : N := N_of_ascii c.

(** A byte [10xxxxxx]. *)
Definition continuation (c : ascii) : bool :=
  ((128 <=? byte c) && (byte c <? 192))%N.

Definition two_bytes (b0 b1 : ascii) : Char :=
  ((byte b0 - 192) * 64 + (byte b1 - 128))%N.

Definition three_bytes (b0 b1 b2 : ascii) : Char :=
  ((byte b0 - 224) * 4096 + (byte b1 - 128) * 64 + (byte b2 - 128))%N.

Definition four_bytes (b0 b1 b2 b3 : ascii) : Char :=
  ((byte b0 - 240) * 262144 + (byte b1 - 128) * 4096 +
   (byte b2 - 128) * 64 + (byte b3 - 128))%N.

(** Well-formed sequences of two, three and four bytes: no overlong
    form, no surrogate, nothing above U+10FFFF. *)
Definition is_two_bytes (b0 b1 : ascii) : bool :=
  ((194 <=? byte b0) && (byte b0 <? 224))%N && continuation b1.

Definition is_three_bytes (b0 b1 b2 : ascii) : bool :=
  ((224 <=? byte b0) && (byte b0 <? 240))%N &&
  continuation b1 && continuation b2 &&
  (2048 <=? three_bytes b0 b1 b2)%N &&
  negb ((55296 <=? three_bytes b0 b1 b2) &&
        (three_bytes b0 b1 b2 <? 57344))%N.

Definition is_four_bytes (b0 b1 b2 b3 : ascii) : bool :=
  ((240 <=? byte b0) && (byte b0 <? 248))%N &&
  continuation b1 && continuation b2 && continuation b3 &&
  ((65536 <=? four_bytes b0 b1 b2 b3) &&
   (four_bytes b0 b1 b2 b3 <=? 1114111))%N.

(** A byte that belongs to no well-formed sequence stands for itself, as
    the code point U+DC00 + byte (what [surrogateescape] makes of it).
    The text that [subprocess.run(..., text=True)] returns has no such
    byte: decoding it would have raised. *)
Definition escaped (b : ascii) : Char := (56320 + byte b)%N.

(** The characters of a text. *)
Fixpoint decode_utf8 (s : string) : list Char :=
  match s with
  | EmptyString => []
  | String b0 s1 =>
      if (byte b0 <? 128)%N then byte b0 :: decode_utf8 s1
      else
        match s1 with
        | EmptyString => escaped b0 :: decode_utf8 s1
        | String b1 s2 =>
            if is_two_bytes b0 b1 then two_bytes b0 b1 :: decode_utf8 s2
            else
              match s2 with
              | EmptyString => escaped b0 :: decode_utf8 s1
              | String b2 s3 =>
                  if is_three_bytes b0 b1 b2
                  then three_bytes b0 b1 b2 :: decode_utf8 s3
                  else
                    match s3 with
                    | EmptyString => escaped b0 :: decode_utf8 s1
                    | String b3 s4 =>
                        if is_four_bytes b0 b1 b2 b3
                        then four_bytes b0 b1 b2 b3 :: decode_utf8 s4
                        else escaped b0 :: decode_utf8 s1
                    end
              end
        end
  end.

Definition byte_string (l : list N) : string :=
  string_of_list_ascii (map ascii_of_N l).

(** The bytes of one character. *)
Definition encode_char (c : Char) : string :=
  (if c <? 128 then byte_string [c]
   else if c <? 2048 then byte_string [192 + c / 64; 128 + c mod 64]
   else if (56448 <=? c) && (c <? 56576) then byte_string [c - 56320]
   else if c <? 65536 then
     byte_string [224 + c / 4096; 128 + (c / 64) mod 64; 128 + c mod 64]
   else
     byte_string [240 + c / 262144; 128 + (c / 4096) mod 64;
                  128 + (c / 64) mod 64; 128 + c mod 64])%N.

(** The text made of the given characters. *)
Definition encode_utf8 (l : list Char) : string :=
  String.concat "" (map encode_char l).

(** *** Character classes of [re]

    On a [str] pattern the classes [\s] and [\d] are the Unicode ones:
    [\s] is white space as [str.isspace] has it and [\d] is the general
    category Nd. The tables are those of Unicode 14.0, the version that
    Python 3.11 carries. *)
Definition in_ranges (ranges : list (N * N)) (c : Char) : bool :=
  existsb (fun r => (fst r <=? c) && (c <=? snd r))%N ranges.

Definition space_ranges : list (N * N) :=
  (
  [(9, 13); (28, 32); (133, 133); (160, 160); (5760, 5760); (8192, 8202);
   (8232, 8233); (8239, 8239); (8287, 8287); (12288, 12288)]
  )%N.

Definition digit_ranges : list (N * N) :=
  (
  [(48, 57); (1632, 1641); (1776, 1785); (1984, 1993); (2406, 2415);
   (2534, 2543); (2662, 2671); (2790, 2799); (2918, 2927); (3046, 3055);
   (3174, 3183); (3302, 3311); (3430, 3439); (3558, 3567); (3664, 3673);
   (3792, 3801); (3872, 3881); (4160, 4169); (4240, 4249); (6112, 6121);
   (6160, 6169); (6470, 6479); (6608, 6617); (6784, 6793); (6800, 6809);
   (6992, 7001); (7088, 7097); (7232, 7241); (7248, 7257); (42528, 42537);
   (43216, 43225); (43264, 43273); (43472, 43481); (43504, 43513);
   (43600, 43609); (44016, 44025); (65296, 65305); (66720, 66729);
   (68912, 68921); (69734, 69743); (69872, 69881); (69942, 69951);
   (70096, 70105); (70384, 70393); (70736, 70745); (70864, 70873);
   (71248, 71257); (71360, 71369); (71472, 71481); (71904, 71913);
   (72016, 72025); (72784, 72793); (73040, 73049); (73120, 73129);
   (92768, 92777); (92864, 92873); (93008, 93017); (120782, 120831);
   (123200, 123209); (123632, 123641); (125264, 125273); (130032, 130041)]
  )%N.

(** [\s] *)
Definition is_space (c : Char) : bool := in_ranges space_ranges c.

(** [\d] *)
Definition is_digit (c : Char) : bool := in_ranges digit_ranges c.

(** The class [[-\d.]] *)
Definition is_level_char (c : Char) : bool :=
  (c =? 45)%N || is_digit c || (c =? 46)%N.

Fixpoint take_chars (p : Char -> bool) (l : list Char) : list Char :=
  match l with
  | [] => []
  | c :: l' => if p c then c :: take_chars p l' else []
  end.

Fixpoint drop_chars (p : Char -> bool) (l : list Char) : list Char :=
  match l with
  | [] => []
  | c :: l' => if p c then drop_chars p l' else l
  end.

(** The rest of [l] after the literal [lit], if [l] starts with it. *)
Fixpoint strip_chars (lit l : list Char) : option (list Char) :=
  match lit with
  | [] => Some l
  | a :: lit' =>
      match l with
      | [] => None
      | b :: l' => if (a =? b)%N then strip_chars lit' l' else None
      end
  end.

(** *** The two searches of the Text Extractor

    [re.search(key + r"\s*([-\d.]+)\s*dB", text)]: the capture group of
    the leftmost match, [None] when there is no match.  The search walks
    the characters of the text.  At one start position the three
    repetitions are taken greedily; the classes [\s], [[-\d.]] and the
    letter [d] are pairwise disjoint, so giving characters back never
    turns a failure into a match. *)
Definition re_match_here (key : string) (l : list Char) : option string :=
  match strip_chars (decode_utf8 key) l with
  | None => None
  | Some r1 =>
      let r2 := drop_chars is_space r1 in
      let num := take_chars is_level_char r2 in
      let r3 := drop_chars is_level_char r2 in
      match num with
      | [] => None
      | _ =>
          match strip_chars (decode_utf8 "dB") (drop_chars is_space r3) with
          | Some _ => Some (encode_utf8 num)
          | None => None
          end
      end
  end.

Fixpoint re_search_from (key : string) (l : list Char) : option string :=
  match re_match_here key l with
  | Some g => Some g
  | None =>
      match l with
      | [] => None
      | _ :: l' => re_search_from key l'
      end
  end.

Definition re_search (key text : string) : option string :=
  re_search_from key (decode_utf8 text).

(** What it means for the pattern to match: the declarative reading of
    the regular expression, on the characters of the text. *)
Definition matches_here (key : string) (l num : list Char) : Prop :=
  exists ws1 ws2 rest,
    l = decode_utf8 key ++ ws1 ++ num ++ ws2 ++ decode_utf8 "dB" ++ rest /\
    forallb is_space ws1 = true /\
    forallb is_level_char num = true /\ num <> [] /\
    forallb is_space ws2 = true.

Definition pattern_present (key text : string) : Prop :=
  exists before l num,
    decode_utf8 text = before ++ l /\ matches_here key l num.

(** *** Decimal numerals

    [float] on plain decimal numerals: an optional sign, ASCII digits
    with at most one point, at least one digit.  Any other string over
    [[-0-9.]] makes Python's [float] raise [ValueError].  The program is
    parametric in [float]; this instance serves at concrete texts (it
    knows no exponent, blank, underscore, [inf], [nan] or non-ASCII
    digit, which Python's [float] accepts, and does not round). *)
Fixpoint digits_value (acc : N) (s : string) : N :=
  match s with
  | EmptyString => acc
  | String c s' => digits_value (10 * acc + N.of_nat (code c - 48))%N s'
  end.

Fixpoint pow10 (n : nat) : positive :=
  match n with
  | O => 1%positive
  | S n' => (10 * pow10 n')%positive
  end.

Definition unsigned_decimal (s : string) : option Q :=
  let ip := take_while ascii_digit s in
  let r := drop_while ascii_digit s in
  match r with
  | EmptyString =>
      match ip with
      | EmptyString => None
      | _ => Some (inject_Z (Z.of_N (digits_value 0 ip)))
      end
  | String c fp =>
      if Ascii.eqb c "." && all_chars ascii_digit fp
         && negb (String.eqb ip "" && String.eqb fp "")
      then Some (Qmake (Z.of_N (digits_value 0 (ip ++ fp)%string))
                       (pow10 (String.length fp)))
      else None
  end.

Definition float_of_decimal (s : string) : option Q :=
  match s with
  | String "-" s' => option_map Qopp (unsigned_decimal s')
  | String "+" s' => unsigned_decimal s'
  | _ => unsigned_decimal s
  end.

(** The message of the [ValueError] that [float(s)] raises. *)
Definition could_not_convert (s : string) : string :=
  ("could not convert string to float: '" ++ s ++ "'")%string.

(** [int(x)]: truncation towards zero. *)
Definition py_int (x : Q) : Z := Z.quot (Qnum x) (Z.pos (Qden x)).

(** [str(n)] for an integer. *)
Definition str_int (n : Z) : string := NilZero.string_of_int (Z.to_int n).

(** ** Paths

    [pathlib.PurePosixPath]: a path is parsed into its root and its
    components; empty components and [.] components are dropped, [..]
    is kept; exactly two leading slashes are a root of their own. *)
Fixpoint split_on (sep : ascii) (s : string) : list string :=
  match s with
  | EmptyString => [EmptyString]
  | String c s' =>
      if Ascii.eqb c sep then EmptyString :: split_on sep s'
      else match split_on sep s' with
           | [] => [String c EmptyString]
           | p :: ps => String c p :: ps
           end
  end.

(** [Path(p).root] *)
Definition path_root (p : string) : string :=
  match p with
  | String "/" (String "/" (String "/" _)) => "/"
  | String "/" (String "/" _) => "//"
  | String "/" _ => "/"
  | _ => ""
  end.

(** The components of [Path(p)], the root left out. *)
Definition path_parts (p : string) : list string :=
  filter (fun part => negb (String.eqb part "" || String.eqb part "."))
         (split_on "/" p).

(** [str] of the path with the given root and components. *)
Definition path_render (root : string) (parts : list string) : string :=
  match root, parts with
  | EmptyString, [] => "."
  | _, _ => (root ++ String.concat "/" parts)%string
  end.

(** [str(Path(p))] *)
Definition path_str (p : string) : string :=
  path_render (path_root p) (path_parts p).

(** [Path(p).name] *)
Definition path_name (p : string) : string := last (path_parts p) "".

(** [str(Path(p).parent)] *)
Definition path_parent (p : string) : string :=
  path_render (path_root p) (removelast (path_parts p)).

(** [str(Path(a) / b)]: an absolute [b] replaces [a]. *)
Definition joinpath (a b : string) : string :=
  if starts_with "/" b then path_str b
  else path_render (path_root a) (path_parts a ++ path_parts b).

(** Position of the last point of [s], counted from the left. *)
Fixpoint rfind_dot (s : string) : option nat :=
  match s with
  | EmptyString => None
  | String c s' =>
      match rfind_dot s' with
      | Some i => Some (S i)
      | None => if Ascii.eqb c "." then Some 0%nat else None
      end
  end.

(** [Path(p).suffix] *)
Definition path_suffix (p : string) : string :=
  let name := path_name p in
  match rfind_dot name with
  | Some i =>
      if ((0 <? i) && (i <? String.length name - 1))%nat
      then substring i (String.length name - i) name
      else ""
  | None => ""
  end.

(** [Path(p).stem] *)
Definition path_stem (p : string) : string :=
  let name := path_name p in
  substring 0 (String.length name - String.length (path_suffix p)) name.

(** ** Measurements *)

(** The dictionaries the analysis produces: a successful measurement, a
    per-file failure (keys [fichier] and [error]), and the batch-level
    failure of [analyze_folder] (key [error] only). *)
Inductive Result : Type :=
  | Measurement (fichier chemin : string)
                (niveau_moyen_db niveau_max_db : Q)
                (classification color emoji : string)
  | Failure (fichier error : string)
  | FolderError (error : string).

(** ['error' in r] *)
Definition has_error (r : Result) : bool :=
  match r with
  | Measurement _ _ _ _ _ _ _ => false
  | Failure _ _ => true
  | FolderError _ => true
  end.

(** [r.get('fichier', '')] *)
Definition get_fichier (r : Result) : string :=
  match r with
  | Measurement fichier _ _ _ _ _ _ => fichier
  | Failure fichier _ => fichier
  | FolderError _ => ""
  end.

(** [[r for r in results if 'error' not in r]] *)
Definition valid_results (results : list Result) : list Result :=
  filter (fun r => negb (has_error r)) results.

(** ** Effects *)

(** The two command lines handed to [subprocess.run]:
    [ffmpeg -i input -af volumedetect -vn -sn -dn -f null -] with a
    timeout of 300 seconds, and
    [ffmpeg -y -i input -af volume=<gain>dB -c:v copy -c:a aac -b:a 192k output]
    with a timeout of 600 seconds. *)
Inductive Cmd : Type :=
  | Volumedetect (input : string)
  | Volume (input : string) (gain_db : Q) (output : string).

Definition timeout (c : Cmd) : Z :=
  match c with
  | Volumedetect _ => 300
  | Volume _ _ _ => 600
  end.

(** What one run of the external tool can do: exit with a return code
    and a diagnostic text, exceed the timeout, or fail to run at all
    (with the text of the exception). *)
Inductive ProcOutcome : Type :=
  | Completed (returncode : Z) (stderr : string)
  | Expired
  | SpawnFailed (msg : string).

Record World : Type := mkWorld {
  path_exists : string -> bool;
  path_is_file : string -> bool;
  path_is_dir : string -> bool;
  (** names of the entries of a directory *)
  listdir : string -> list string;
  ffmpeg : Cmd -> ProcOutcome;
  (** which of the running workers finishes next, step after step *)
  completion_order : list nat
}.

Inductive Report : Type := Html | Csv | Json.

Inductive Message : Type :=
  | MsgUsage
  | MsgInvalidNormalize
  | MsgInvalidBoost
  | MsgPathNotFound (target : string)
  | MsgAnalysing (name : string)
  | MsgFileError (error : string)
  | MsgFileResult (r : Result)
  | MsgNormalizing (gain target : Q)
  | MsgBoosting (gain : Q)
  | MsgFileCreated (output : string)
  | MsgCorrectionError
  | MsgFilesFound (n : nat) (folder : string)
  | MsgProgress (current total : nat)
  | MsgSummary (analysed errors : nat)
  | MsgNothingToCorrect
  | MsgCorrecting (mode : string) (value : Q) (output_dir : string)
  | MsgCorrected (success errors : nat) (output_dir : string).

Inductive Event : Type :=
  | EvRun (c : Cmd)
  | EvMkdir (dir : string)
  | EvWrite (kind : Report) (path : string)
  | EvPrint (m : Message).

(** Exceptions: [subprocess.TimeoutExpired], any other subclass of
    [Exception] with its [str(e)], and [SystemExit]. *)
Inductive exn : Type :=
  | TimeoutExpired
  | Error (msg : string)
  | SystemExit (status : Z).

Definition M (A : Type) : Type := list Event * (exn + A).

Definition ret {A} (a : A) : M A := ([], inr a).

Definition raise {A} (e : exn) : M A := ([], inl e).

Definition tell (e : Event) : M unit := ([e], inr tt).

Definition bind {A B} (m : M A) (k : A -> M B) : M B :=
  match m with
  | (t, inl e) => (t, inl e)
  | (t, inr a) => let (t', r) := k a in (t ++ t', r)
  end.

Notation "x <- c1 ;; c2" := (bind c1 (fun x => c2))
  (at level 61, c1 at next level, right associativity).
Notation "c1 ;; c2" := (bind c1 (fun _ => c2))
  (at level 61, right associativity).

(** [try: body  except ...: handler]; a handler answering [None] does
    not catch the exception. *)
Definition try_except {A} (body : M A) (handler : exn -> option (M A)) : M A :=
  match body with
  | (t, inr a) => (t, inr a)
  | (t, inl e) =>
      match handler e with
      | Some h => let (t', r) := h in (t ++ t', r)
      | None => (t, inl e)
      end
  end.

Definition trace {A} (m : M A) : list Event := fst m.
Definition outcome {A} (m : M A) : exn + A := snd m.

Definition sys_exit {A} (status : Z) : M A := raise (SystemExit status).

(** [print(...)] *)
Definition print (m : Message) : M unit := tell (EvPrint m).

(** The external-tool invocations of a trace. *)
Definition runs (t : list Event) : list Cmd :=
  flat_map (fun e => match e with EvRun c => [c] | _ => [] end) t.

(** ** Sorting *)

Section Sorting.
Context {A : Type} (key : A -> string).

Fixpoint insert_by (x : A) (l : list A) : list A :=
  match l with
  | [] => [x]
  | y :: l' =>
      if String.leb (key x) (key y) then x :: l
      else y :: insert_by x l'
  end.

(** [sorted(l, key=key)]: ascending and stable. *)
Definition sort_by (l : list A) : list A := fold_right insert_by [] l.

Definition key_le (a b : A) : Prop := String.leb (key a) (key b) = true.
End Sorting.

(** ** The worker pool *)

(** Takes the element at position [i] out of a list. *)
Fixpoint pick {A} (i : nat) (l : list A) {struct l} : option (A * list A) :=
  match l with
  | [] => None
  | x :: l' =>
      match i with
      | O => Some (x, l')
      | S i' =>
          match pick i' l' with
          | Some (y, r) => Some (y, x :: r)
          | None => None
          end
      end
  end.

(** [as_completed] over a pool of [width] workers: the submitted jobs
    wait in [queue] in submission order; free workers take jobs from its
    head; one of the jobs in [running], chosen by the head of [order],
    finishes and is yielded. *)
Fixpoint as_completed {A} (fuel width : nat) (running queue : list A)
         (order : list nat) : list A :=
  match fuel with
  | O => []
  | S fuel' =>
      let free := (width - List.length running)%nat in
      let running' := running ++ firstn free queue in
      let queue' := skipn free queue in
      match pick (hd 0%nat order mod List.length running') running' with
      | None => []
      | Some (done, rest) =>
          done :: as_completed fuel' width rest queue' (tl order)
      end
  end.

(** ** The program *)

(** [r[key]] raises [KeyError] when the key is missing. *)
Definition key_error {A} (key : string) : M A :=
  raise (Error ("'" ++ key ++ "'")%string).

Definition item_niveau_moyen_db (r : Result) : M Q :=
  match r with
  | Measurement _ _ mean_db _ _ _ _ => ret mean_db
  | _ => key_error "niveau_moyen_db"
  end.

Definition item_chemin (r : Result) : M string :=
  match r with
  | Measurement _ chemin _ _ _ _ _ => ret chemin
  | _ => key_error "chemin"
  end.

Definition item_fichier (r : Result) : M string :=
  match r with
  | Measurement fichier _ _ _ _ _ _ => ret fichier
  | Failure fichier _ => ret fichier
  | FolderError _ => key_error "fichier"
  end.

Definition default_extensions : list string :=
  [".mp4"; ".mkv"; ".avi"; ".mov"; ".webm"; ".mp3"; ".wav"; ".m4a"].

Section Program.

(** Python's built-in [float] on strings, [None] for [ValueError]. *)
Variable float : string -> option Q.

Variable w : World.

Definition py_float (s : string) : M Q :=
  match float s with
  | Some x => ret x
  | None => raise (Error (could_not_convert s))
  end.

(** [subprocess.run(cmd, capture_output=True, text=True, timeout=...)]:
    the return code and the captured diagnostic text. *)
Definition subprocess_run (cmd : Cmd) : M (Z * string) :=
  tell (EvRun cmd) ;;
  match ffmpeg w cmd with
  | Completed returncode stderr => ret (returncode, stderr)
  | Expired => raise TimeoutExpired
  | SpawnFailed msg => raise (Error msg)
  end.

(** [except Exception] *)
Definition except_Exception {A} (h : M A) (e : exn) : option (M A) :=
  match e with
  | SystemExit _ => None
  | _ => Some h
  end.

Definition apply_audio_correction (file_path : string) (gain_db : Q)
           (output_path : string) : M bool :=
  try_except
    (result <- subprocess_run (Volume file_path gain_db output_path) ;;
     ret (Z.eqb (fst result) 0))
    (except_Exception (ret false)).

Definition analyze_audio_level (file_path : string) : M Result :=
  let path := file_path in
  if negb (path_exists w path) then
    ret (Failure (path_name path) "Fichier non trouvé")
  else
    try_except
      (result <- subprocess_run (Volumedetect file_path) ;;
       let stderr := snd result in
       let mean_match := re_search "mean_volume:" stderr in
       let max_match := re_search "max_volume:" stderr in
       match mean_match, max_match with
       | Some mean_group, Some max_group =>
           mean_db <- py_float mean_group ;;
           max_db <- py_float max_group ;;
           let level := classify_level mean_db in
           ret (Measurement (path_name path) (path_str path) mean_db max_db
                            (label level) (color level) (emoji level))
       | _, _ => ret (Failure (path_name path) "Pas de piste audio")
       end)
      (fun e =>
         match e with
         | TimeoutExpired => Some (ret (Failure (path_name path) "Timeout"))
         | Error msg => Some (ret (Failure (path_name path) msg))
         | SystemExit _ => None
         end).

Definition print_progress_bar (current total : nat) : M unit :=
  print (MsgProgress current total).

(** [folder.glob("*" + ext)] for an extension that [glob] reads
    literally ([plain_extension] below): the entries of the folder whose
    name ends with [ext], each as the path [folder / name]. Hidden
    entries and directories are matched like any other entry, and the
    comparison is case-sensitive, as on POSIX. *)
Definition glob (folder ext : string) : list string :=
  map (joinpath folder) (filter (ends_with ext) (listdir w folder)).

(** The file discovery of [analyze_folder]:
    the paths matched by [*ext] or [*EXT], [sorted(set(files))]. *)
Definition discover (folder : string) (extensions : list string)
  : list string :=
  let files :=
    flat_map (fun ext => glob folder ext ++ glob folder (upper ext))
             extensions in
  sort_by (fun f => f) (nodup string_dec files).

(** The loop over [as_completed(futures)]. *)
Fixpoint collect (futures : list (M Result)) (results : list Result)
         (completed total : nat) : M (list Result) :=
  match futures with
  | [] => ret results
  | future :: futures' =>
      result <- future ;;
      let results := results ++ [result] in
      let completed := S completed in
      print_progress_bar completed total ;;
      collect futures' results completed total
  end.

Definition analyze_folder (folder_path : string) (extensions : list string)
           (workers : Z) : M (list Result) :=
  let folder := folder_path in
  if negb (path_is_dir w folder) then
    ret [FolderError ("Dossier non trouvé: " ++ folder_path)%string]
  else
    let files := discover folder extensions in
    match files with
    | [] =>
        ret [FolderError ("Aucun fichier trouvé dans " ++ folder_path)%string]
    | _ =>
        print (MsgFilesFound (List.length files) folder_path) ;;
        if (workers <=? 0)%Z then
          raise (Error "max_workers must be greater than 0")
        else
          let futures := map analyze_audio_level files in
          results <- collect
                       (as_completed (List.length futures)
                          (Z.to_nat workers) [] futures
                          (completion_order w))
                       [] 0%nat (List.length files) ;;
          ret (sort_by get_fichier results)
    end.

Definition print_summary (results : list Result) : M unit :=
  let valid := valid_results results in
  let errors := filter has_error results in
  print (MsgSummary (List.length valid) (List.length errors)).

(** The loop of [process_corrections] over [enumerate(valid_results, 1)]. *)
Fixpoint correct_each (todo : list Result) (i total : nat)
         (mode : string) (value : Q) (output_dir : string)
         (success errors : nat) : M (nat * nat) :=
  match todo with
  | [] => ret (success, errors)
  | r :: todo' =>
      gain <- (if String.eqb mode "normalize"
               then (mean_db <- item_niveau_moyen_db r ;;
                     ret (value - mean_db)%Q)
               else ret value) ;;
      input_path <- item_chemin r ;;
      fichier <- item_fichier r ;;
      let output_path := joinpath output_dir fichier in
      print_progress_bar i total ;;
      ok <- apply_audio_correction input_path gain output_path ;;
      if ok
      then correct_each todo' (S i) total mode value output_dir
                        (S success) errors
      else correct_each todo' (S i) total mode value output_dir
                        success (S errors)
  end.

Definition correction_dir (folder mode : string) (value : Q) : string :=
  if String.eqb mode "normalize"
  then joinpath folder
         ("normalized_" ++ str_int (py_int (Qabs value)) ++ "dB")%string
  else joinpath folder
         ("boosted_+" ++ str_int (py_int value) ++ "dB")%string.

Definition process_corrections (results : list Result)
           (folder_path mode : string) (value : Q) : M unit :=
  let valid_results := valid_results results in
  match valid_results with
  | [] => print MsgNothingToCorrect
  | _ =>
      let output_dir := correction_dir folder_path mode value in
      tell (EvMkdir output_dir) ;;
      print (MsgCorrecting mode value output_dir) ;;
      counts <- correct_each valid_results 1%nat
                  (List.length valid_results) mode value output_dir
                  0%nat 0%nat ;;
      print (MsgCorrected (fst counts) (snd counts) output_dir)
  end.

(** ["--flag" in sys.argv] *)
Definition in_argv (flag : string) (argv : list string) : bool :=
  existsb (String.eqb flag) argv.

(** [sys.argv.index(flag)], for a flag that occurs. *)
Fixpoint index (flag : string) (argv : list string) : nat :=
  match argv with
  | [] => 0%nat
  | a :: argv' => if String.eqb a flag then 0%nat else S (index flag argv')
  end.

(** One of the two blocks of [main] that read a correction option. *)
Definition correction_option (flag : string) (invalid : Message)
           (argv : list string) : M (option Q) :=
  if in_argv flag argv then
    let idx := index flag argv in
    if (idx + 1 <? List.length argv)%nat then
      match float (nth (idx + 1) argv "") with
      | Some v => ret (Some v)
      | None => print invalid ;; sys_exit 1
      end
    else ret None
  else ret None.

(** [path] is [Path(target)], held by the text it was built from: the
    path functions parse their argument, so that [path / name] and
    [Path(str(path)) / name] are the same path. *)
Definition main (argv : list string) : M unit :=
  if (List.length argv <? 2)%nat then
    print MsgUsage ;; sys_exit 1
  else
    let target := nth 1 argv "" in
    let path := target in
    normalize_target <-
      correction_option "--normalize" MsgInvalidNormalize argv ;;
    boost_value <- correction_option "--boost" MsgInvalidBoost argv ;;
    if path_is_file w path then
      print (MsgAnalysing (path_name path)) ;;
      result <- analyze_audio_level target ;;
      match result with
      | Measurement _ _ mean_db _ _ _ _ =>
          print (MsgFileResult result) ;;
          match normalize_target, boost_value with
          | Some normalize_target, _ =>
              let gain := (normalize_target - mean_db)%Q in
              let output_path :=
                joinpath (path_parent path)
                  (path_stem path ++ "_normalized" ++ path_suffix path)
                  %string in
              print (MsgNormalizing gain normalize_target) ;;
              ok <- apply_audio_correction target gain output_path ;;
              if ok then print (MsgFileCreated output_path)
              else print MsgCorrectionError
          | None, Some boost_value =>
              let output_path :=
                joinpath (path_parent path)
                  (path_stem path ++ "_boosted" ++ path_suffix path)
                  %string in
              print (MsgBoosting boost_value) ;;
              ok <- apply_audio_correction target boost_value output_path ;;
              if ok then print (MsgFileCreated output_path)
              else print MsgCorrectionError
          | None, None => ret tt
          end
      | Failure _ error | FolderError error => print (MsgFileError error)
      end
    else if path_is_dir w path then
      results <- analyze_folder target default_extensions 4 ;;
      print_summary results ;;
      (if negb (in_argv "--no-html" argv)
       then tell (EvWrite Html (joinpath path "audio_report.html"))
       else ret tt) ;;
      (if in_argv "--csv" argv
       then tell (EvWrite Csv (joinpath path "audio_levels.csv"))
       else ret tt) ;;
      (if in_argv "--json" argv
       then tell (EvWrite Json (joinpath path "audio_levels.json"))
       else ret tt) ;;
      match normalize_target, boost_value with
      | Some normalize_target, _ =>
          process_corrections results path "normalize" normalize_target
      | None, Some boost_value =>
          process_corrections results path "boost" boost_value
      | None, None => ret tt
      end
    else
      print (MsgPathNotFound target) ;; sys_exit 1.

End Program.

(** * The host in detail

    The program above takes the file system at its word: the queries
    answer, the output folder can be created, and a correction value is
    a number. This part follows [analyze_audio_level] and
    [process_corrections] on a host where the statements outside a [try]
    block can fail, with floats that are IEEE doubles:
    - [Path.exists] raises the [OSError] of [stat] unless the error says
      that the path is not there (a name that is too long and a folder
      that may not be searched make it raise; Python 3.11);
    - [Path.mkdir(exist_ok=True)] raises when the folder cannot be
      created (its parent is missing or read-only, a file has its name);
    - a float is a number, an infinity or NaN, and [int] raises on the
      last two;
    - the subtraction of two floats is rounded. *)
Module Host.

(** A Python [float]. *)
Inductive Number : Type :=
  | Finite (q : Q)
  | Infinite (negative : bool)
  | NaN.

Record t : Type := mk {
  world : World;
  (** the message of the [OSError] that [Path(p).exists()] raises *)
  exists_error : string -> option string;
  (** the message of the [OSError] that [Path(p).mkdir(exist_ok=True)]
      raises *)
  mkdir_error : string -> option string
}.

(** [path.exists()], the statement at line 48, before the [try]. *)
Definition path_exists (h : t) (path : string) : M bool :=
  match exists_error h path with
  | Some msg => raise (Error msg)
  | None => ret (path_exists (world h) path)
  end.

Definition analyze_audio_level (float : string -> option Q) (h : t)
           (file_path : string) : M Result :=
  let path := file_path in
  found <- path_exists h path ;;
  if negb found then
    ret (Failure (path_name path) "Fichier non trouvé")
  else
    try_except
      (result <- subprocess_run (world h) (Volumedetect file_path) ;;
       let stderr := snd result in
       let mean_match := re_search "mean_volume:" stderr in
       let max_match := re_search "max_volume:" stderr in
       match mean_match, max_match with
       | Some mean_group, Some max_group =>
           mean_db <- py_float float mean_group ;;
           max_db <- py_float float max_group ;;
           let level := classify_level mean_db in
           ret (Measurement (path_name path) (path_str path) mean_db max_db
                            (label level) (color level) (emoji level))
       | _, _ => ret (Failure (path_name path) "Pas de piste audio")
       end)
      (fun e =>
         match e with
         | TimeoutExpired => Some (ret (Failure (path_name path) "Timeout"))
         | Error msg => Some (ret (Failure (path_name path) msg))
         | SystemExit _ => None
         end).

(** [output_dir.mkdir(exist_ok=True)]: the attempt is an event. *)
Definition mkdir (h : t) (dir : string) : M unit :=
  tell (EvMkdir dir) ;;
  match mkdir_error h dir with
  | Some msg => raise (Error msg)
  | None => ret tt
  end.

(** The loop of [process_corrections], the gain computed on doubles. *)
Fixpoint correct_each (h : t) (todo : list Result) (i total : nat)
         (mode : string) (value : Q) (output_dir : string)
         (success errors : nat) : M (nat * nat) :=
  match todo with
  | [] => ret (success, errors)
  | r :: todo' =>
      gain <- (if String.eqb mode "normalize"
               then (mean_db <- item_niveau_moyen_db r ;;
                     ret (double_sub value mean_db))
               else ret value) ;;
      input_path <- item_chemin r ;;
      fichier <- item_fichier r ;;
      let output_path := joinpath output_dir fichier in
      print_progress_bar i total ;;
      ok <- apply_audio_correction (world h) input_path gain output_path ;;
      if ok
      then correct_each h todo' (S i) total mode value output_dir
                        (S success) errors
      else correct_each h todo' (S i) total mode value output_dir
                        success (S errors)
  end.

(** [int(value)] and [int(abs(value))] in the name of the output folder
    are the first uses of [value]; they raise [OverflowError] on an
    infinity and [ValueError] on NaN. *)
Definition process_corrections (h : t) (results : list Result)
           (folder_path mode : string) (value : Number) : M unit :=
  let valid_results := valid_results results in
  match valid_results with
  | [] => print MsgNothingToCorrect
  | _ =>
      match value with
      | Infinite _ =>
          raise (Error "cannot convert float infinity to integer")
      | NaN => raise (Error "cannot convert float NaN to integer")
      | Finite value =>
          let output_dir := correction_dir folder_path mode value in
          mkdir h output_dir ;;
          print (MsgCorrecting mode value output_dir) ;;
          counts <- correct_each h valid_results 1%nat
                      (List.length valid_results) mode value output_dir
                      0%nat 0%nat ;;
          print (MsgCorrected (fst counts) (snd counts) output_dir)
      end
  end.

End Host.

(** * Vocabulary of the properties *)

(** ** Measurement *)

Section MeasuredValue.

Variable float : string -> option Q.
Variable w : World.

(** What the body of [analyze_audio_level] makes of a diagnostic text. *)
Definition extract (file_path stderr : string) : Result :=
  match re_search "mean_volume:" stderr, re_search "max_volume:" stderr with
  | Some mean_group, Some max_group =>
      match float mean_group with
      | None => Failure (path_name file_path) (could_not_convert mean_group)
      | Some mean_db =>
          match float max_group with
          | None => Failure (path_name file_path) (could_not_convert max_group)
          | Some max_db =>
              Measurement (path_name file_path) (path_str file_path)
                          mean_db max_db
                          (label (classify_level mean_db))
                          (color (classify_level mean_db))
                          (emoji (classify_level mean_db))
          end
      end
  | _, _ => Failure (path_name file_path) "Pas de piste audio"
  end.

(** The value [analyze_audio_level] returns, case by case. *)
Definition measured (file_path : string) : Result :=
  if negb (path_exists w file_path) then
    Failure (path_name file_path) "Fichier non trouvé"
  else
    match ffmpeg w (Volumedetect file_path) with
    | Completed _ stderr => extract file_path stderr
    | Expired => Failure (path_name file_path) "Timeout"
    | SpawnFailed msg => Failure (path_name file_path) msg
    end.

End MeasuredValue.

(** ** Discovery *)

(** A character that a glob pattern reads literally and that [str.upper]
    treats as ASCII: not a wildcard ([*], [?], [[]), not the separator,
    and below 128. *)
Definition plain_char (c : ascii) : bool :=
  (code c <? 128)%nat &&
  negb (Ascii.eqb c "*" || Ascii.eqb c "?" || Ascii.eqb c "[" ||
        Ascii.eqb c "/").

Definition plain_extension (ext : string) : bool := all_chars plain_char ext.

(** ** Regular expressions *)

(** Whether the text starts with a character outside the class. *)
Definition head_fails (p : Char -> bool) (l : list Char) : Prop :=
  match l with
  | [] => True
  | c :: _ => p c = false
  end.

(** No number is in a range of both tables. *)
Definition ranges_apart (r1 r2 : list (N * N)) : bool :=
  forallb (fun a =>
             forallb (fun b => (snd a <? fst b) || (snd b <? fst a))%N r2) r1.

(** The table of the class [[-\d.]]. *)
Definition level_ranges : list (N * N) := ((45, 46) :: digit_ranges)%N.

(** ** Traces *)

(** An event that is neither a corrective transcode nor the creation of
    an output folder. *)
Definition not_a_correction (e : Event) : Prop :=
  match e with
  | EvRun (Volume _ _ _) => False
  | EvMkdir _ => False
  | _ => True
  end.

Definition is_correction (c : Cmd) : bool :=
  match c with
  | Volume _ _ _ => true
  | Volumedetect _ => false
  end.

(** The corrective transcodes of a trace. *)
Definition corrections (t : list Event) : list Cmd :=
  filter is_correction (runs t).

(** The gain of each corrective transcode. *)
Definition gains (cmds : list Cmd) : list Q :=
  flat_map (fun c => match c with
                     | Volume _ gain_db _ => [gain_db]
                     | Volumedetect _ => []
                     end) cmds.

(** The mean level of each error-free measurement. *)
Definition means (results : list Result) : list Q :=
  flat_map (fun r => match r with
                     | Measurement _ _ mean_db _ _ _ _ => [mean_db]
                     | _ => []
                     end) results.

Definition gain_for (mode : string) (value mean_db : Q) : Q :=
  if String.eqb mode "normalize" then (value - mean_db)%Q else value.

(** One corrective transcode per error-free measurement, none for a
    failure. *)
Definition expected_corrections (mode : string) (value : Q)
           (output_dir : string) (results : list Result) : list Cmd :=
  flat_map (fun r => match r with
                     | Measurement fichier chemin mean_db _ _ _ _ =>
                         [Volume chemin (gain_for mode value mean_db)
                                 (joinpath output_dir fichier)]
                     | _ => []
                     end) results.

(** Whether the external tool makes a corrective transcode succeed. *)
Definition correction_ok (w : World) (c : Cmd) : bool :=
  match ffmpeg w c with
  | Completed returncode _ => Z.eqb returncode 0
  | _ => false
  end.

(** The two counters of the final summary of [process_corrections]. *)
Fixpoint reported_counts (t : list Event) : option (nat * nat) :=
  match t with
  | [] => None
  | EvPrint (MsgCorrected success errors _) :: _ => Some (success, errors)
  | _ :: t' => reported_counts t'
  end.

Definition loop_event (e : Event) : Prop :=
  match e with
  | EvPrint (MsgProgress _ _) => True
  | EvRun (Volume _ _ _) => True
  | _ => False
  end.

(** ** Command line *)

(** The argument that follows the first occurrence of a flag, if the flag
    occurs and is not the last argument. *)
Definition option_argument (flag : string) (argv : list string)
  : option string :=
  if in_argv flag argv && (index flag argv + 1 <? List.length argv)%nat
  then Some (nth (index flag argv + 1) argv "")
  else None.

(** ** Sample worlds *)

Definition nl : string := String (ascii_of_nat 10) EmptyString.

(** A folder [videos] with the given entries; every path exists, and
    every path but the folder is a regular file. *)
Definition sample_world (entries : list string) (tool : Cmd -> ProcOutcome)
           (order : list nat) : World :=
  {| path_exists := fun _ => true;
     path_is_file := fun p => negb (String.eqb p "videos");
     path_is_dir := fun p => String.eqb p "videos";
     listdir := fun d => if String.eqb d "videos" then entries else [];
     ffmpeg := tool;
     completion_order := order |}.

(** The tool prints both loudness lines. *)
Definition tool_ok (c : Cmd) : ProcOutcome :=
  Completed 0 ("[Parsed_volumedetect_0 @ 0x55d] mean_volume: -30.0 dB" ++ nl ++
               "[Parsed_volumedetect_0 @ 0x55d] max_volume: -4.5 dB" ++ nl).

(** The tool prints a malformed mean value. *)
Definition tool_malformed (c : Cmd) : ProcOutcome :=
  Completed 0 ("mean_volume: 1.2.3 dB" ++ nl ++ "max_volume: 0.0 dB" ++ nl).

(** The tool finds no audio stream and exits with status 1. *)
Definition tool_no_audio (c : Cmd) : ProcOutcome :=
  Completed 1 ("Output file #0 does not contain any stream" ++ nl).

(** The tool prints both loudness lines and still exits with status 1. *)
Definition tool_late_failure (c : Cmd) : ProcOutcome :=
  Completed 1 ("mean_volume: -30.0 dB" ++ nl ++ "max_volume: -4.5 dB" ++ nl ++
               "Conversion failed!" ++ nl).

(** The failure kinds of the specification, read off the [error] text. *)
Inductive FailureKind : Type :=
  | NotFound | NoAudioStream | Timeout | ToolError (msg : string).

Definition failure_kind (error : string) : FailureKind :=
  if String.eqb error "Fichier non trouvé" then NotFound
  else if String.eqb error "Pas de piste audio" then NoAudioStream
  else if String.eqb error "Timeout" then Timeout
  else ToolError error.

(** * The HTML report *)

(** Python dictionaries keyed by strings, as association lists. *)
Fixpoint dict_get {V} (d : list (string * V)) (key : string) : option V :=
  match d with
  | [] => None
  | (k, v) :: d' => if String.eqb k key then Some v else dict_get d' key
  end.

(** [d.get(key, default)] *)
Definition dict_get_default {V} (d : list (string * V)) (key : string)
           (default : V) : V :=
  match dict_get d key with
  | Some v => v
  | None => default
  end.

(** [d[key] = v] *)
Fixpoint dict_set {V} (d : list (string * V)) (key : string) (v : V)
  : list (string * V) :=
  match d with
  | [] => [(key, v)]
  | (k, v0) :: d' =>
      if String.eqb k key then (k, v) :: d'
      else (k, v0) :: dict_set d' key v
  end.

(** [d[key]] *)
Definition dict_item {V} (d : list (string * V)) (key : string) : M V :=
  match dict_get d key with
  | Some v => ret v
  | None => key_error key
  end.

Definition item_niveau_max_db (r : Result) : M Q :=
  match r with
  | Measurement _ _ _ max_db _ _ _ => ret max_db
  | _ => key_error "niveau_max_db"
  end.

Definition item_classification (r : Result) : M string :=
  match r with
  | Measurement _ _ _ _ classification _ _ => ret classification
  | _ => key_error "classification"
  end.

Definition item_color (r : Result) : M string :=
  match r with
  | Measurement _ _ _ _ _ color _ => ret color
  | _ => key_error "color"
  end.

Definition item_emoji (r : Result) : M string :=
  match r with
  | Measurement _ _ _ _ _ _ emoji => ret emoji
  | _ => key_error "emoji"
  end.

Definition item_error (r : Result) : M string :=
  match r with
  | Measurement _ _ _ _ _ _ _ => key_error "error"
  | Failure _ error => ret error
  | FolderError error => ret error
  end.

(** A list comprehension or a loop whose body may raise. *)
Fixpoint map_M {A B} (f : A -> M B) (l : list A) : M (list B) :=
  match l with
  | [] => ret []
  | x :: l' =>
      y <- f x ;;
      ys <- map_M f l' ;;
      ret (y :: ys)
  end.

(** [max(a, b)] and [min(a, b)]: the first argument unless the second is
    strictly beyond it. *)
Definition py_max (a b : Q) : Q := if Qltb a b then b else a.
Definition py_min (a b : Q) : Q := if Qltb b a then b else a.

(** [min(l)] and [max(l)] *)
Definition min_of (l : list Q) : M Q :=
  match l with
  | [] => raise (Error "min() arg is an empty sequence")
  | x :: l' => ret (fold_left py_min l' x)
  end.

Definition max_of (l : list Q) : M Q :=
  match l with
  | [] => raise (Error "max() arg is an empty sequence")
  | x :: l' => ret (fold_left py_max l' x)
  end.

(** [sum(l)] *)
Definition sum_of (l : list Q) : Q := fold_left Qplus l 0%Q.

(** The loop that fills [levels_count]. *)
Fixpoint count_levels (valid_results : list Result)
         (levels_count : list (string * nat)) : M (list (string * nat)) :=
  match valid_results with
  | [] => ret levels_count
  | r :: rest =>
      lvl <- item_classification r ;;
      count_levels rest
        (dict_set levels_count lvl (dict_get_default levels_count lvl 0 + 1)%nat)
  end.

Definition level_colors : list (string * string) :=
  [("TRÈS BAS", "#ef4444");
   ("BAS", "#f97316");
   ("MOYEN-", "#eab308");
   ("MOYEN", "#22c55e");
   ("MOYEN+", "#10b981");
   ("ÉLEVÉ", "#3b82f6")].

(** The levels the distribution loop goes through. *)
Definition report_levels : list string :=
  ["TRÈS BAS"; "BAS"; "MOYEN-"; "MOYEN"; "MOYEN+"; "ÉLEVÉ"].

(** One bar of the distribution. *)
Record DistItem : Type := mkDistItem {
  dist_level : string;
  dist_color : string;
  dist_width : nat;
  dist_count : nat
}.

(** The loop over the levels: a bar for each level counted at least
    once. *)
Fixpoint distribution (levels : list string)
         (levels_count : list (string * nat)) : M (list DistItem) :=
  match levels with
  | [] => ret []
  | level :: levels' =>
      let count := dict_get_default levels_count level 0%nat in
      if (0 <? count)%nat then
        let width := Nat.max 30 (count * 20) in
        level_color <- dict_item level_colors level ;;
        items <- distribution levels' levels_count ;;
        ret ({| dist_level := level; dist_color := level_color;
                dist_width := width; dist_count := count |} :: items)
      else distribution levels' levels_count
  end.

(** The width of the level bar of a file, from -50 dB to 0 dB. *)
Definition bar_percent (mean_db : Q) : Q :=
  py_min (py_max ((mean_db + 50) / 50 * 100) 0) 100.

(** One line of the table of files. *)
Record Row : Type := mkRow {
  row_fichier : string;
  row_niveau_moyen_db : Q;
  row_percent : Q;
  row_color : string;
  row_niveau_max_db : Q;
  row_emoji : string;
  row_classification : string
}.

Definition report_row (r : Result) : M Row :=
  mean_db <- item_niveau_moyen_db r ;;
  let percent := bar_percent mean_db in
  fichier <- item_fichier r ;;
  color <- item_color r ;;
  max_db <- item_niveau_max_db r ;;
  emoji <- item_emoji r ;;
  classification <- item_classification r ;;
  ret {| row_fichier := fichier; row_niveau_moyen_db := mean_db;
         row_percent := percent; row_color := color;
         row_niveau_max_db := max_db; row_emoji := emoji;
         row_classification := classification |}.

(** One line of the list of errors: [e["fichier"]] and [e["error"]]. *)
Definition error_item (e : Result) : M (string * string) :=
  fichier <- item_fichier e ;;
  error <- item_error e ;;
  ret (fichier, error).

(** The variable parts of the page, in the order of the template (the
    time stamp of the subtitle is left out). *)
Record HtmlReport : Type := mkHtmlReport {
  html_title : string;
  html_folder : string;
  html_analysed : nat;
  html_avg_mean : Q;
  html_min_mean : Q;
  html_max_mean : Q;
  html_distribution : list DistItem;
  html_rows : list Row;
  html_errors : list (string * string)
}.

(** [generate_html_report]; the value is the content written to
    [output_path]. *)
Definition generate_html_report (results : list Result)
           (folder_path output_path : string) : M HtmlReport :=
  let valid_results := valid_results results in
  let errors := filter has_error results in
  stats <-
    match valid_results with
    | [] => ret (0%Q, 0%Q, 0%Q, [])
    | _ =>
        means <- map_M item_niveau_moyen_db valid_results ;;
        let avg_mean :=
          (sum_of means / inject_Z (Z.of_nat (List.length means)))%Q in
        min_mean <- min_of means ;;
        max_mean <- max_of means ;;
        levels_count <- count_levels valid_results [] ;;
        ret (avg_mean, min_mean, max_mean, levels_count)
    end ;;
  let '(avg_mean, min_mean, max_mean, levels_count) := stats in
  dist <- distribution report_levels levels_count ;;
  rows <- map_M report_row valid_results ;;
  error_items <- map_M error_item errors ;;
  tell (EvWrite Html output_path) ;;
  ret {| html_title := path_name folder_path;
         html_folder := folder_path;
         html_analysed := List.length valid_results;
         html_avg_mean := avg_mean;
         html_min_mean := min_mean;
         html_max_mean := max_mean;
         html_distribution := dist;
         html_rows := rows;
         html_errors := error_items |}.

(** ** More vocabulary *)

(** The output folders a trace creates. *)
Definition mkdirs (t : list Event) : list string :=
  flat_map (fun e => match e with EvMkdir d => [d] | _ => [] end) t.

(** The reports a trace writes. *)
Definition writes (t : list Event) : list (Report * string) :=
  flat_map (fun e => match e with EvWrite k p => [(k, p)] | _ => [] end) t.

(** The summaries a trace prints. *)
Definition summaries (t : list Event) : list (nat * nat) :=
  flat_map (fun e => match e with
                     | EvPrint (MsgSummary analysed errors) =>
                         [(analysed, errors)]
                     | _ => []
                     end) t.

(** The events of an analysis: a run of the detector, the count of files
    found, a step of the progress bar. *)
Definition analysis_event (e : Event) : Prop :=
  match e with
  | EvRun (Volumedetect _) => True
  | EvPrint (MsgFilesFound _ _) => True
  | EvPrint (MsgProgress _ _) => True
  | _ => False
  end.

(** The classification of a measurement. *)
Definition classification_of (r : Result) : string :=
  match r with
  | Measurement _ _ _ _ classification _ _ => classification
  | _ => ""
  end.

Definition sum_nat (l : list nat) : nat := fold_right Nat.add 0%nat l.

(** The same world with another order of completion. *)
Definition with_order (w : World) (order : list nat) : World :=
  {| path_exists := path_exists w;
     path_is_file := path_is_file w;
     path_is_dir := path_is_dir w;
     listdir := listdir w;
     ffmpeg := ffmpeg w;
     completion_order := order |}.

(** The events of a correction pass. *)
Definition correction_event (e : Event) : Prop :=
  match e with
  | EvMkdir _ => True
  | EvRun (Volume _ _ _) => True
  | EvPrint MsgNothingToCorrect => True
  | EvPrint (MsgCorrecting _ _ _) => True
  | EvPrint (MsgCorrected _ _ _) => True
  | EvPrint (MsgProgress _ _) => True
  | _ => False
  end.

(** The files the corrective transcodes write. *)
Definition outputs (cmds : list Cmd) : list string :=
  flat_map (fun c => match c with
                     | Volume _ _ output => [output]
                     | Volumedetect _ => []
                     end) cmds.

(** The value of an option once [main] has read it. *)
Definition option_value (float : string -> option Q) (flag : string)
           (argv : list string) : option Q :=
  match option_argument flag argv with
  | Some a => float a
  | None => None
  end.

(** No option is followed by an argument that [float] rejects. *)
Definition options_valid (float : string -> option Q) (argv : list string)
  : Prop :=
  (forall a, option_argument "--normalize" argv = Some a -> float a <> None) /\
  (forall a, option_argument "--boost" argv = Some a -> float a <> None).

(** The reports a command line asks for, in the order [main] writes
    them. *)
Definition reports_requested (argv : list string) (target : string)
  : list (Report * string) :=
  (if negb (in_argv "--no-html" argv)
   then [(Html, joinpath target "audio_report.html")] else []) ++
  (if in_argv "--csv" argv
   then [(Csv, joinpath target "audio_levels.csv")] else []) ++
  (if in_argv "--json" argv
   then [(Json, joinpath target "audio_levels.json")] else []).

(** The transcode of the single-file path of [main]. *)
Definition file_correction (target : string) (mean_db : Q)
           (normalize_target boost_value : option Q) : list Cmd :=
  match normalize_target, boost_value with
  | Some n, _ =>
      [Volume target (n - mean_db)%Q
              (joinpath (path_parent target)
                        (path_stem target ++ "_normalized" ++
                         path_suffix target)%string)]
  | None, Some b =>
      [Volume target b
              (joinpath (path_parent target)
                        (path_stem target ++ "_boosted" ++
                         path_suffix target)%string)]
  | None, None => []
  end.

(** The transcodes of the folder path of [main]. *)
Definition folder_corrections (target : string) (results : list Result)
           (normalize_target boost_value : option Q) : list Cmd :=
  match normalize_target, boost_value with
  | Some n, _ =>
      expected_corrections "normalize" n
        (correction_dir target "normalize" n) results
  | None, Some b =>
      expected_corrections "boost" b (correction_dir target "boost" b) results
  | None, None => []
  end.

(** The events of writing reports. *)
Definition write_events (l : list (Report * string)) : list Event :=
  map (fun kp => EvWrite (fst kp) (snd kp)) l.

(** Two measurements and a failure, as [analyze_folder] returns them. *)
Definition sample_results : list Result :=
  [Measurement "a.mp4" "videos/a.mp4" (-300 # 10) (-45 # 10)
               "MOYEN+" "#10b981" "🔊";
   Failure "b.mp4" "Pas de piste audio";
   Measurement "c.mp4" "videos/c.mp4" (-55) (-20) "TRÈS BAS" "#ef4444" "🔇"].

(** ** The host in detail *)

(** The file each corrective transcode reads and the file it writes. *)
Definition targets (cmds : list Cmd) : list (string * string) :=
  flat_map (fun c => match c with
                     | Volume input _ output => [(input, output)]
                     | Volumedetect _ => []
                     end) cmds.

(** For each error-free measurement, the file to read and the file to
    write. *)
Definition expected_targets (output_dir : string) (results : list Result)
  : list (string * string) :=
  flat_map (fun r => match r with
                     | Measurement fichier chemin _ _ _ _ _ =>
                         [(chemin, joinpath output_dir fichier)]
                     | _ => []
                     end) results.

Definition double_gain_for (mode : string) (value mean_db : Q) : Q :=
  if String.eqb mode "normalize" then double_sub value mean_db else value.

(** One corrective transcode per error-free measurement, the gain
    computed on doubles. *)
Definition expected_double_corrections (mode : string) (value : Q)
           (output_dir : string) (results : list Result) : list Cmd :=
  flat_map (fun r => match r with
                     | Measurement fichier chemin mean_db _ _ _ _ =>
                         [Volume chemin (double_gain_for mode value mean_db)
                                 (joinpath output_dir fichier)]
                     | _ => []
                     end) results.

(** A host on which [exists] answers and every folder can be created. *)
Definition sample_host (w : World) : Host.t :=
  Host.mk w (fun _ => None) (fun _ => None).

(** A host without the folder [nowhere]: nothing can be created in it. *)
Definition host_without_folder (w : World) : Host.t :=
  Host.mk w (fun _ => None)
    (fun dir =>
       if starts_with "nowhere/" dir
       then Some ("[Errno 2] No such file or directory: '" ++ dir ++ "'")
            %string
       else None).

(** A host whose file names hold 255 bytes at most. *)
Definition host_with_short_names (w : World) : Host.t :=
  Host.mk w
    (fun p =>
       if (255 <? String.length (path_name p))%nat
       then Some ("[Errno 36] File name too long: '" ++ p ++ "'")%string
       else None)
    (fun _ => None).

(** A name of [n] letters. *)
Fixpoint long_name (n : nat) : string :=
  match n with
  | O => EmptyString
  | S n' => String "a" (long_name n')
  end.

(** * Properties *)

(** ** Classifier *)

Lemma Qltb_lt (x y : Q) : Qltb x y = true <-> (x < y)%Q.
Proof.
  unfold Qltb. rewrite negb_true_iff.
  split; intro H.
  - apply Qnot_le_lt. intro Hle. apply Qle_bool_iff in Hle. congruence.
  - destruct (Qle_bool y x) eqn:E; [| reflexivity].
    apply Qle_bool_iff in E. exfalso. exact (Qlt_not_le _ _ H E).
Qed.

Lemma Qltb_ge (x y : Q) : Qltb x y = false <-> (y <= x)%Q.
Proof.
  unfold Qltb. rewrite negb_false_iff. apply Qle_bool_iff.
Qed.

Lemma band_of_label_band_label (b : Band) : band_of_label (band_label b) = Some b.
Proof. destruct b; reflexivity. Qed.

Lemma classify_level_band (x : Q) :
  exists b, band_of (classify_level x) = Some b /\ in_band b x.
Proof.
  unfold classify_level.
  destruct (Qltb x (-50)) eqn:E1.
  { exists TresBas. split; [reflexivity | now apply Qltb_lt]. }
  destruct (Qltb x (-42)) eqn:E2.
  { exists Bas. split; [reflexivity |].
    split; [now apply Qltb_ge | now apply Qltb_lt]. }
  destruct (Qltb x (-36)) eqn:E3.
  { exists MoyenMoins. split; [reflexivity |].
    split; [now apply Qltb_ge | now apply Qltb_lt]. }
  destruct (Qltb x (-30)) eqn:E4.
  { exists Moyen. split; [reflexivity |].
    split; [now apply Qltb_ge | now apply Qltb_lt]. }
  destruct (Qltb x (-24)) eqn:E5.
  { exists MoyenPlus. split; [reflexivity |].
    split; [now apply Qltb_ge | now apply Qltb_lt]. }
  exists Eleve. split; [reflexivity | now apply Qltb_ge].
Qed.

(** The intervals are ordered: a value of a higher band is not below a
    value of a lower band. *)
Lemma in_band_rank (b1 b2 : Band) (x y : Q) :
  in_band b1 x -> in_band b2 y -> (x <= y)%Q ->
  (band_rank b1 <= band_rank b2)%nat.
Proof.
  intros H1 H2 Hxy.
  destruct b1, b2; simpl in *; try lia; exfalso; lra.
Qed.

Lemma in_band_unique (b1 b2 : Band) (x : Q) :
  in_band b1 x -> in_band b2 x -> b1 = b2.
Proof.
  intros H1 H2.
  destruct b1, b2; simpl in *; try reflexivity; exfalso; lra.
Qed.

(** C1. For every value [mean_db], [classify_level] returns exactly one of
    the six bands, the one whose half-open interval between the ascending
    thresholds -50, -42, -36, -30, -24 contains the value; the tests are
    strict, so a value on a boundary is in the higher band: -50 is "BAS",
    -50.1 is the lowest band and -24 is the highest. *)
Theorem classify_level_boundaries :
  (forall mean_db : Q, exists b : Band,
      band_of (classify_level mean_db) = Some b /\
      in_band b mean_db /\
      (forall b', in_band b' mean_db -> b' = b)) /\
  band_of (classify_level (-50)) = Some Bas /\
  label (classify_level (-50)) = "BAS" /\
  band_of (classify_level (-50.1)) = Some TresBas /\
  band_of (classify_level (-24)) = Some Eleve /\
  band_of (classify_level (-42)) = Some MoyenMoins.
Proof.
  split.
  - intro x. destruct (classify_level_band x) as [b [Hb Hin]].
    exists b. repeat split; trivial.
    intros b' Hb'. exact (in_band_unique _ _ _ Hb' Hin).
  - repeat split.
Qed.

(** C2. Band assignment is monotonic: for [a <= b] the band of [a] is at
    most the band of [b] in the order of the six bands. *)
Theorem classify_level_monotone (a b : Q) :
  (a <= b)%Q ->
  exists ba bb : Band,
    band_of (classify_level a) = Some ba /\
    band_of (classify_level b) = Some bb /\
    (band_rank ba <= band_rank bb)%nat.
Proof.
  intro Hab.
  destruct (classify_level_band a) as [ba [Ha Hina]].
  destruct (classify_level_band b) as [bb [Hb Hinb]].
  exists ba, bb. repeat split; trivial.
  exact (in_band_rank _ _ _ _ Hina Hinb Hab).
Qed.

Lemma classify_level_monotone_witness :
  ((-42.5 <= -36)%Q) /\
  exists ba bb : Band,
    band_of (classify_level (-42.5)) = Some ba /\
    band_of (classify_level (-36)) = Some bb /\
    (band_rank ba <= band_rank bb)%nat.
Proof.
  split.
  - lra.
  - apply (classify_level_monotone (-42.5) (-36)). lra.
Defined.


(** ** Computations *)

Lemma M_eta {A} (m : M A) : m = (trace m, outcome m).
Proof. destruct m; reflexivity. Qed.

Lemma bind_returned {A B} (t : list Event) (a : A) (k : A -> M B) :
  bind (t, inr a) k = (t ++ trace (k a), outcome (k a)).
Proof. unfold bind. destruct (k a); reflexivity. Qed.

Lemma bind_raised {A B} (t : list Event) (e : exn) (k : A -> M B) :
  bind (t, inl e) k = (t, inl e).
Proof. reflexivity. Qed.

Lemma bind_ret {A B} (a : A) (k : A -> M B) : bind (ret a) k = k a.
Proof. unfold ret. rewrite bind_returned. simpl. symmetry. apply M_eta. Qed.

Lemma bind_tell {B} (e : Event) (k : unit -> M B) :
  bind (tell e) k = (e :: trace (k tt), outcome (k tt)).
Proof. unfold tell. rewrite bind_returned. reflexivity. Qed.

Lemma bind_print {B} (m : Message) (k : unit -> M B) :
  bind (print m) k = (EvPrint m :: trace (k tt), outcome (k tt)).
Proof. apply bind_tell. Qed.

Lemma runs_app (t1 t2 : list Event) : runs (t1 ++ t2) = runs t1 ++ runs t2.
Proof. unfold runs. apply flat_map_app. Qed.

(** ** Measurement Invoker and Text Extractor *)

Section Measure.

Variable float : string -> option Q.
Variable w : World.

Lemma analyze_audio_level_eq (file_path : string) :
  analyze_audio_level float w file_path =
  ((if path_exists w file_path then [EvRun (Volumedetect file_path)] else []),
   inr (measured float w file_path)).
Proof.
  unfold analyze_audio_level, measured.
  destruct (path_exists w file_path); simpl; [| reflexivity].
  unfold subprocess_run. rewrite bind_tell.
  destruct (ffmpeg w (Volumedetect file_path)) as [rc stderr | | msg];
    simpl; try reflexivity.
  unfold extract.
  destruct (re_search "mean_volume:" stderr) as [g1 |]; [| reflexivity].
  destruct (re_search "max_volume:" stderr) as [g2 |]; [| reflexivity].
  unfold py_float.
  destruct (float g1) as [x |]; [| reflexivity].
  rewrite bind_ret.
  destruct (float g2) as [y |]; reflexivity.
Qed.

Lemma host_analyze_audio_level_eq (h : Host.t) (file_path : string) :
  Host.analyze_audio_level float h file_path =
  match Host.exists_error h file_path with
  | Some msg => ([], inl (Error msg))
  | None => analyze_audio_level float (Host.world h) file_path
  end.
Proof.
  unfold Host.analyze_audio_level, Host.path_exists, analyze_audio_level.
  destruct (Host.exists_error h file_path) as [msg |]; [reflexivity |].
  now rewrite bind_ret.
Qed.

Lemma apply_audio_correction_eq (file_path : string) (gain_db : Q)
      (output_path : string) :
  apply_audio_correction w file_path gain_db output_path =
  ([EvRun (Volume file_path gain_db output_path)],
   inr (match ffmpeg w (Volume file_path gain_db output_path) with
        | Completed returncode _ => Z.eqb returncode 0
        | _ => false
        end)).
Proof.
  unfold apply_audio_correction, subprocess_run. rewrite bind_tell.
  destruct (ffmpeg w (Volume file_path gain_db output_path)); reflexivity.
Qed.

End Measure.

(** *** The characters of a text *)

(** Linear arithmetic with divisions by constants. *)
Ltac div_lia := zify; Z.to_euclidean_division_equations; lia.

Lemma byte_lt (b : ascii) : (byte b < 256)%N.
Proof. unfold byte. apply N_ascii_bounded. Qed.

Lemma ascii_of_byte (b : ascii) : ascii_of_N (byte b) = b.
Proof. apply ascii_N_embedding. Qed.

Lemma continuation_bounds (b : ascii) :
  continuation b = true -> (128 <= byte b < 192)%N.
Proof.
  unfold continuation. intro H. apply andb_prop in H. destruct H as [H1 H2].
  apply N.leb_le in H1. apply N.ltb_lt in H2. lia.
Qed.

Lemma encode_one (b0 : ascii) :
  (byte b0 < 128)%N -> encode_char (byte b0) = String b0 "".
Proof.
  intro H. unfold encode_char. apply N.ltb_lt in H. rewrite H.
  unfold byte_string. cbn [map string_of_list_ascii]. now rewrite ascii_of_byte.
Qed.

Lemma encode_escaped (b0 : ascii) :
  (128 <= byte b0)%N -> encode_char (escaped b0) = String b0 "".
Proof.
  intro H. assert (K := byte_lt b0). unfold encode_char, escaped.
  destruct (N.ltb_spec (56320 + byte b0) 128); [lia |].
  destruct (N.ltb_spec (56320 + byte b0) 2048); [lia |].
  destruct (N.leb_spec 56448 (56320 + byte b0)); [| lia].
  destruct (N.ltb_spec (56320 + byte b0) 56576); [| lia].
  cbn [andb]. unfold byte_string. cbn [map string_of_list_ascii].
  replace (56320 + byte b0 - 56320)%N with (byte b0) by div_lia.
  now rewrite ascii_of_byte.
Qed.

Lemma encode_two (b0 b1 : ascii) :
  is_two_bytes b0 b1 = true ->
  encode_char (two_bytes b0 b1) = String b0 (String b1 "").
Proof.
  unfold is_two_bytes. intro H.
  apply andb_prop in H. destruct H as [H Hc1].
  apply andb_prop in H. destruct H as [H1 H2].
  apply N.leb_le in H1. apply N.ltb_lt in H2.
  apply continuation_bounds in Hc1.
  unfold encode_char, two_bytes.
  set (c := ((byte b0 - 192) * 64 + (byte b1 - 128))%N).
  assert (Hc : (128 <= c < 2048)%N) by (unfold c; lia).
  destruct (N.ltb_spec c 128); [lia |].
  destruct (N.ltb_spec c 2048); [| lia].
  unfold byte_string. cbn [map string_of_list_ascii].
  replace (192 + c / 64)%N with (byte b0) by (unfold c; div_lia).
  replace (128 + c mod 64)%N with (byte b1) by (unfold c; div_lia).
  now rewrite !ascii_of_byte.
Qed.

Lemma encode_three (b0 b1 b2 : ascii) :
  is_three_bytes b0 b1 b2 = true ->
  encode_char (three_bytes b0 b1 b2) = String b0 (String b1 (String b2 "")).
Proof.
  unfold is_three_bytes. intro H.
  apply andb_prop in H. destruct H as [H Hs].
  apply andb_prop in H. destruct H as [H Hlow].
  apply andb_prop in H. destruct H as [H Hc2].
  apply andb_prop in H. destruct H as [H Hc1].
  apply andb_prop in H. destruct H as [H1 H2].
  apply N.leb_le in H1, Hlow. apply N.ltb_lt in H2.
  apply continuation_bounds in Hc1, Hc2.
  apply negb_true_iff in Hs.
  unfold encode_char.
  set (c := three_bytes b0 b1 b2) in *.
  assert (Ec : c = ((byte b0 - 224) * 4096 + (byte b1 - 128) * 64 +
                    (byte b2 - 128))%N) by reflexivity.
  assert (Hc : (2048 <= c < 65536)%N) by lia.
  destruct (N.ltb_spec c 128); [lia |].
  destruct (N.ltb_spec c 2048); [lia |].
  assert (Hesc : (56448 <=? c)%N && (c <? 56576)%N = false).
  { destruct (N.leb_spec 56448 c); [| reflexivity].
    destruct (N.ltb_spec c 56576); [| reflexivity].
    destruct (N.leb_spec 55296 c); [| lia].
    destruct (N.ltb_spec c 57344); [discriminate | lia]. }
  rewrite Hesc.
  destruct (N.ltb_spec c 65536); [| lia].
  unfold byte_string. cbn [map string_of_list_ascii].
  replace (224 + c / 4096)%N with (byte b0) by div_lia.
  replace (128 + (c / 64) mod 64)%N with (byte b1) by div_lia.
  replace (128 + c mod 64)%N with (byte b2) by div_lia.
  now rewrite !ascii_of_byte.
Qed.

Lemma encode_four (b0 b1 b2 b3 : ascii) :
  is_four_bytes b0 b1 b2 b3 = true ->
  encode_char (four_bytes b0 b1 b2 b3) =
  String b0 (String b1 (String b2 (String b3 ""))).
Proof.
  unfold is_four_bytes. intro H.
  apply andb_prop in H. destruct H as [H Hr].
  apply andb_prop in H. destruct H as [H Hc3].
  apply andb_prop in H. destruct H as [H Hc2].
  apply andb_prop in H. destruct H as [H Hc1].
  apply andb_prop in H. destruct H as [H1 H2].
  apply andb_prop in Hr. destruct Hr as [Hr1 Hr2].
  apply N.leb_le in H1, Hr1, Hr2. apply N.ltb_lt in H2.
  apply continuation_bounds in Hc1, Hc2, Hc3.
  unfold encode_char.
  set (c := four_bytes b0 b1 b2 b3) in *.
  assert (Ec : c = ((byte b0 - 240) * 262144 + (byte b1 - 128) * 4096 +
                    (byte b2 - 128) * 64 + (byte b3 - 128))%N) by reflexivity.
  destruct (N.ltb_spec c 128); [lia |].
  destruct (N.ltb_spec c 2048); [lia |].
  assert (Hesc : (56448 <=? c)%N && (c <? 56576)%N = false).
  { destruct (N.leb_spec 56448 c); [| reflexivity].
    destruct (N.ltb_spec c 56576); [lia | reflexivity]. }
  rewrite Hesc.
  destruct (N.ltb_spec c 65536); [lia |].
  unfold byte_string. cbn [map string_of_list_ascii].
  replace (240 + c / 262144)%N with (byte b0) by div_lia.
  replace (128 + (c / 4096) mod 64)%N with (byte b1) by div_lia.
  replace (128 + (c / 64) mod 64)%N with (byte b2) by div_lia.
  replace (128 + c mod 64)%N with (byte b3) by div_lia.
  now rewrite !ascii_of_byte.
Qed.

Lemma encode_utf8_cons (c : Char) (l : list Char) :
  encode_utf8 (c :: l) = (encode_char c ++ encode_utf8 l)%string.
Proof.
  unfold encode_utf8. cbn [map String.concat].
  destruct (map encode_char l) eqn:E.
  - simpl. clear. induction (encode_char c); simpl; [reflexivity | now f_equal].
  - reflexivity.
Qed.

(** One step of the decoder: the first character and the rest. *)
Lemma decode_utf8_step (b0 : ascii) (s1 : string) :
  exists c rest,
    decode_utf8 (String b0 s1) = c :: decode_utf8 rest /\
    String b0 s1 = (encode_char c ++ rest)%string /\
    (String.length rest <= String.length s1)%nat.
Proof.
  cbn [decode_utf8].
  destruct (N.ltb_spec (byte b0) 128) as [Hlow | Hhigh].
  { exists (byte b0), s1. now rewrite encode_one. }
  assert (Hesc : exists c rest,
             escaped b0 :: decode_utf8 s1 = c :: decode_utf8 rest /\
             String b0 s1 = (encode_char c ++ rest)%string /\
             (String.length rest <= String.length s1)%nat).
  { exists (escaped b0), s1. now rewrite encode_escaped. }
  destruct s1 as [| b1 s2]; [exact Hesc |].
  destruct (is_two_bytes b0 b1) eqn:E2.
  { exists (two_bytes b0 b1), s2. rewrite encode_two by exact E2.
    simpl. repeat split. lia. }
  destruct s2 as [| b2 s3]; [exact Hesc |].
  destruct (is_three_bytes b0 b1 b2) eqn:E3.
  { exists (three_bytes b0 b1 b2), s3. rewrite encode_three by exact E3.
    simpl. repeat split. lia. }
  destruct s3 as [| b3 s4]; [exact Hesc |].
  destruct (is_four_bytes b0 b1 b2 b3) eqn:E4.
  { exists (four_bytes b0 b1 b2 b3), s4. rewrite encode_four by exact E4.
    simpl. repeat split. lia. }
  exact Hesc.
Qed.

(** Decoding loses nothing: the characters of a text give the text back. *)
Lemma encode_decode_utf8 (s : string) : encode_utf8 (decode_utf8 s) = s.
Proof.
  assert (H : forall n s, (String.length s <= n)%nat ->
                          encode_utf8 (decode_utf8 s) = s).
  { clear s. induction n as [| n IH]; intros s Hn.
    - destruct s; [reflexivity | simpl in Hn; lia].
    - destruct s as [| b0 s1]; [reflexivity |].
      destruct (decode_utf8_step b0 s1) as (c & rest & Hd & Hs & Hlen).
      rewrite Hd, encode_utf8_cons, IH, <- Hs; [reflexivity |].
      simpl in Hn. lia. }
  now apply (H (String.length s)).
Qed.

Lemma append_assoc (a b c : string) :
  ((a ++ b) ++ c = a ++ (b ++ c))%string.
Proof. induction a as [| x a IH]; simpl; [reflexivity | now f_equal]. Qed.

Lemma encode_utf8_app (a b : list Char) :
  encode_utf8 (a ++ b) = (encode_utf8 a ++ encode_utf8 b)%string.
Proof.
  induction a as [| c a IH]; [reflexivity |].
  cbn [app]. now rewrite !encode_utf8_cons, IH, append_assoc.
Qed.

(** *** The searches find exactly what the pattern describes *)

Lemma strip_chars_app (p l : list Char) : strip_chars p (p ++ l) = Some l.
Proof.
  induction p as [| a p IH]; simpl; [reflexivity |].
  now rewrite N.eqb_refl.
Qed.

Lemma strip_chars_Some (p l r : list Char) :
  strip_chars p l = Some r -> l = p ++ r.
Proof.
  revert l. induction p as [| a p IH]; simpl; intros l H.
  - congruence.
  - destruct l as [| b l]; [discriminate |].
    destruct (N.eqb a b) eqn:E; [| discriminate].
    apply N.eqb_eq in E. subst b. f_equal. now apply IH.
Qed.

Lemma take_drop_chars (p : Char -> bool) (l : list Char) :
  l = take_chars p l ++ drop_chars p l.
Proof.
  induction l as [| c l IH]; simpl; [reflexivity |].
  destruct (p c); simpl; [now f_equal | reflexivity].
Qed.

Lemma forallb_take_chars (p : Char -> bool) (l : list Char) :
  forallb p (take_chars p l) = true.
Proof.
  induction l as [| c l IH]; simpl; [reflexivity |].
  destruct (p c) eqn:E; simpl; [now rewrite E | reflexivity].
Qed.

Lemma take_chars_app (p : Char -> bool) (a b : list Char) :
  forallb p a = true -> head_fails p b ->
  take_chars p (a ++ b) = a.
Proof.
  induction a as [| c a IH]; simpl; intros Ha Hb.
  - destruct b as [| d b]; simpl in *; [reflexivity | now rewrite Hb].
  - apply andb_prop in Ha. destruct Ha as [Hc Ha].
    rewrite Hc. f_equal. now apply IH.
Qed.

Lemma drop_chars_app (p : Char -> bool) (a b : list Char) :
  forallb p a = true -> head_fails p b ->
  drop_chars p (a ++ b) = b.
Proof.
  induction a as [| c a IH]; simpl; intros Ha Hb.
  - destruct b as [| d b]; simpl in *; [reflexivity | now rewrite Hb].
  - apply andb_prop in Ha. destruct Ha as [Hc Ha].
    rewrite Hc. now apply IH.
Qed.

Lemma in_ranges_apart (r1 r2 : list (N * N)) (c : Char) :
  ranges_apart r1 r2 = true -> in_ranges r1 c = true ->
  in_ranges r2 c = false.
Proof.
  unfold ranges_apart, in_ranges. intros Hap Hin.
  apply existsb_exists in Hin. destruct Hin as ([a1 b1] & Hin1 & Hc1).
  rewrite forallb_forall in Hap. specialize (Hap _ Hin1).
  rewrite forallb_forall in Hap.
  destruct (existsb _ r2) eqn:E; [| reflexivity].
  apply existsb_exists in E. destruct E as ([a2 b2] & Hin2 & Hc2).
  specialize (Hap _ Hin2). simpl in *.
  apply andb_prop in Hc1. destruct Hc1 as [H1 H2].
  apply andb_prop in Hc2. destruct Hc2 as [H3 H4].
  apply N.leb_le in H1, H2, H3, H4.
  apply orb_prop in Hap. destruct Hap as [H | H]; apply N.ltb_lt in H; lia.
Qed.

Lemma is_level_char_ranges (c : Char) :
  is_level_char c = in_ranges level_ranges c.
Proof.
  unfold is_level_char, level_ranges, is_digit, in_ranges.
  cbn [existsb fst snd].
  destruct (existsb _ digit_ranges).
  - now rewrite orb_true_r, orb_true_r.
  - rewrite !orb_false_r.
    destruct (N.eqb_spec c 45), (N.eqb_spec c 46),
             (N.leb_spec 45 c), (N.leb_spec c 46); simpl; try reflexivity; lia.
Qed.

Lemma level_char_not_space (c : Char) :
  is_level_char c = true -> is_space c = false.
Proof.
  rewrite is_level_char_ranges. apply in_ranges_apart.
  vm_compute. reflexivity.
Qed.

Lemma space_not_level_char (c : Char) :
  is_space c = true -> is_level_char c = false.
Proof.
  rewrite is_level_char_ranges. apply in_ranges_apart.
  vm_compute. reflexivity.
Qed.

Lemma re_match_here_sound (key : string) (l : list Char) (g : string) :
  re_match_here key l = Some g ->
  exists num, g = encode_utf8 num /\ matches_here key l num.
Proof.
  unfold re_match_here.
  destruct (strip_chars (decode_utf8 key) l) as [r1 |] eqn:E1;
    [| discriminate].
  apply strip_chars_Some in E1.
  set (r2 := drop_chars is_space r1).
  set (r3 := drop_chars is_level_char r2).
  destruct (take_chars is_level_char r2) as [| c n] eqn:En; [discriminate |].
  destruct (strip_chars (decode_utf8 "dB") (drop_chars is_space r3))
    as [rest |] eqn:E4; [| discriminate].
  intro H. injection H as <-.
  apply strip_chars_Some in E4.
  exists (c :: n). split; [reflexivity |].
  exists (take_chars is_space r1), (take_chars is_space r3), rest.
  repeat split.
  - rewrite <- E4, <- (take_drop_chars is_space r3).
    rewrite <- En. unfold r3. rewrite <- (take_drop_chars is_level_char r2).
    unfold r2. now rewrite <- (take_drop_chars is_space r1).
  - apply forallb_take_chars.
  - rewrite <- En. apply forallb_take_chars.
  - discriminate.
  - apply forallb_take_chars.
Qed.

Lemma re_match_here_complete (key : string) (l num : list Char) :
  matches_here key l num -> re_match_here key l = Some (encode_utf8 num).
Proof.
  intros (ws1 & ws2 & rest & -> & Hw1 & Hn & Hne & Hw2).
  unfold re_match_here.
  rewrite strip_chars_app.
  assert (Hd : head_fails is_level_char (ws2 ++ decode_utf8 "dB" ++ rest)).
  { destruct ws2 as [| c ws2]; simpl; [reflexivity |].
    simpl in Hw2. apply andb_prop in Hw2.
    now apply space_not_level_char. }
  rewrite (drop_chars_app is_space ws1).
  - rewrite (take_chars_app is_level_char num),
            (drop_chars_app is_level_char num) by assumption.
    rewrite (drop_chars_app is_space ws2) by (assumption || reflexivity).
    rewrite strip_chars_app.
    destruct num; [congruence | reflexivity].
  - assumption.
  - destruct num as [| c num]; [congruence |]. simpl.
    simpl in Hn. apply andb_prop in Hn. now apply level_char_not_space.
Qed.

Lemma re_search_from_None (key : string) (l : list Char) :
  re_search_from key l = None <->
  ~ exists before l' num, l = before ++ l' /\ matches_here key l' num.
Proof.
  split.
  - intros H (before & l' & num & -> & Hm).
    apply re_match_here_complete in Hm.
    induction before as [| c before IH]; simpl in H.
    + destruct l'; simpl in H; rewrite Hm in H; discriminate.
    + destruct (re_match_here key (c :: before ++ l')); [discriminate |].
      now apply IH.
  - induction l as [| c l IH]; intro H; simpl.
    + destruct (re_match_here key []) as [g |] eqn:E; [| reflexivity].
      exfalso. apply H. apply re_match_here_sound in E.
      destruct E as (num & _ & Hm). now exists [], [], num.
    + destruct (re_match_here key (c :: l)) as [g |] eqn:E.
      * exfalso. apply H. apply re_match_here_sound in E.
        destruct E as (num & _ & Hm). now exists [], (c :: l), num.
      * apply IH. intros (before & l' & num & -> & Hm). apply H.
        exists (c :: before), l', num. split; [reflexivity | assumption].
Qed.

Lemma re_search_from_Some (key : string) (l : list Char) (g : string) :
  re_search_from key l = Some g ->
  exists before l' num,
    l = before ++ l' /\ matches_here key l' num /\ g = encode_utf8 num.
Proof.
  induction l as [| c l IH]; simpl.
  - destruct (re_match_here key []) as [g' |] eqn:E; [| discriminate].
    intro H. injection H as ->. apply re_match_here_sound in E.
    destruct E as (num & Hg & Hm). now exists [], [], num.
  - destruct (re_match_here key (c :: l)) as [g' |] eqn:E.
    + intro H. injection H as ->. apply re_match_here_sound in E.
      destruct E as (num & Hg & Hm). now exists [], (c :: l), num.
    + intro H. destruct (IH H) as (before & l' & num & -> & Hm & Hg).
      now exists (c :: before), l', num.
Qed.

Lemma re_search_None (key text : string) :
  re_search key text = None <-> ~ pattern_present key text.
Proof. apply re_search_from_None. Qed.

Lemma re_search_present (key text : string) :
  pattern_present key text <-> exists g, re_search key text = Some g.
Proof.
  split.
  - intro Hp. destruct (re_search key text) as [g |] eqn:E.
    + now exists g.
    + apply re_search_None in E. contradiction.
  - intros [g Hg]. apply re_search_from_Some in Hg.
    destruct Hg as (b & l & num & Ht & Hm & _).
    now exists b, l, num.
Qed.

Lemma encode_char_nonempty (c : Char) : encode_char c <> "".
Proof.
  unfold encode_char, byte_string.
  repeat match goal with
         | |- context [if ?b then _ else _] => destruct b
         end; discriminate.
Qed.

(** The capture is a piece of the text: it stands between the key and
    the unit, with nothing but the two runs of white space around it. *)
Lemma re_search_capture (key text g : string) :
  re_search key text = Some g ->
  exists before ws1 ws2 rest,
    text = (before ++ key ++ encode_utf8 ws1 ++ g ++ encode_utf8 ws2 ++
            "dB" ++ rest)%string /\
    forallb is_space ws1 = true /\
    forallb is_space ws2 = true /\
    g <> "".
Proof.
  intro H. apply re_search_from_Some in H.
  destruct H as (b & l & num & Ht & (ws1 & ws2 & rest & -> & H1 & Hn & Hne & H2)
                 & ->).
  exists (encode_utf8 b), ws1, ws2, (encode_utf8 rest).
  repeat split; try assumption.
  - rewrite <- (encode_decode_utf8 text), Ht.
    rewrite !encode_utf8_app, !encode_decode_utf8. reflexivity.
  - destruct num as [| c num]; [congruence |].
    rewrite encode_utf8_cons. intro K.
    destruct (encode_char c) eqn:E; [| discriminate].
    now apply (encode_char_nonempty c).
Qed.

(** The decoder and the classes at work: a no-break space (U+00A0) is
    white space, Arabic-Indic digits are digits, and the capture is the
    text of the characters matched. *)
Example re_search_unicode :
  let nbsp := String (ascii_of_nat 194) (String (ascii_of_nat 160) "") in
  decode_utf8 ("dB" ++ nbsp ++ "é٣🔊") =
    [100; 66; 160; 233; 1635; 128266]%N /\
  encode_utf8 [100; 66; 160; 233; 1635; 128266]%N = ("dB" ++ nbsp ++ "é٣🔊")%string /\
  re_search "mean_volume:" ("mean_volume:" ++ nbsp ++ "-20.0 dB") =
    Some "-20.0" /\
  re_search "max_volume:" "x max_volume: -٣.٥dB" = Some "-٣.٥" /\
  re_search "max_volume:" "max_volume: dB max_volume:7 dB" = Some "7" /\
  re_search "max_volume:" "max_volume: -3.5 db" = None.
Proof. vm_compute. repeat split. Qed.

(** A diagnostic text with a no-break space after the first key is a
    measurement like any other. *)
Example no_break_space_after_key :
  let nbsp := String (ascii_of_nat 194) (String (ascii_of_nat 160) "") in
  extract float_of_decimal "videos/a.mp4"
    ("mean_volume:" ++ nbsp ++ "-20.0 dB max_volume: -1.0 dB") =
  Measurement "a.mp4" "videos/a.mp4" (-200 # 10) (-10 # 10)
              "ÉLEVÉ" "#3b82f6" "📢".
Proof. reflexivity. Qed.

Section Extractor.

Variable float : string -> option Q.
Variable w : World.

Lemma extract_no_audio (file_path stderr : string) :
  extract float file_path stderr =
    Failure (path_name file_path) "Pas de piste audio" <->
  re_search "mean_volume:" stderr = None \/
  re_search "max_volume:" stderr = None.
Proof.
  unfold extract, could_not_convert.
  destruct (re_search "mean_volume:" stderr) as [g1 |];
    [| split; intros; [now left | reflexivity]].
  destruct (re_search "max_volume:" stderr) as [g2 |];
    [| split; intros; [now right | reflexivity]].
  split.
  - destruct (float g1); [destruct (float g2) |]; simpl; intro H;
      discriminate.
  - intros [H | H]; discriminate.
Qed.

(** C5, as the code has it. When the tool has run and printed [stderr],
    the result is the failure "Pas de piste audio" if and only if one of
    the two patterns is absent from [stderr]. When both are present the
    captured texts go through [float]: if both convert, the result is the
    measurement with the two numbers; if one does not, the result is a
    failure carrying the message of the conversion error. *)
Theorem extractor_outcome (file_path : string) (returncode : Z)
        (stderr : string) :
  path_exists w file_path = true ->
  ffmpeg w (Volumedetect file_path) = Completed returncode stderr ->
  let r := outcome (analyze_audio_level float w file_path) in
  (r = inr (Failure (path_name file_path) "Pas de piste audio") <->
   ~ pattern_present "mean_volume:" stderr \/
   ~ pattern_present "max_volume:" stderr) /\
  (pattern_present "mean_volume:" stderr ->
   pattern_present "max_volume:" stderr ->
   exists mean_group max_group,
     re_search "mean_volume:" stderr = Some mean_group /\
     re_search "max_volume:" stderr = Some max_group /\
     match float mean_group, float max_group with
     | Some mean_db, Some max_db =>
         r = inr (Measurement (path_name file_path) (path_str file_path)
                          mean_db max_db
                              (label (classify_level mean_db))
                              (color (classify_level mean_db))
                              (emoji (classify_level mean_db)))
     | None, _ =>
         r = inr (Failure (path_name file_path)
                          (could_not_convert mean_group))
     | Some _, None =>
         r = inr (Failure (path_name file_path)
                          (could_not_convert max_group))
     end).
Proof.
  intros Hex Hrun r. subst r.
  rewrite analyze_audio_level_eq. unfold outcome, measured. simpl.
  rewrite Hex, Hrun. simpl.
  split.
  - rewrite <- !re_search_None. rewrite <- (extract_no_audio file_path).
    split; intro H; [congruence | now f_equal].
  - intros Hmean Hmax.
    apply re_search_present in Hmean. destruct Hmean as [g1 Hg1].
    apply re_search_present in Hmax. destruct Hmax as [g2 Hg2].
    exists g1, g2. repeat split; trivial.
    unfold extract. rewrite Hg1, Hg2.
    destruct (float g1); [destruct (float g2) |]; reflexivity.
Qed.

(** C6, as the code has it. The existence check sits before the [try]
    block: when it raises, the exception escapes to the caller and the
    tool is not run. When it answers, [analyze_audio_level] returns a
    result and does not raise: a missing path gives "Fichier non trouvé"
    without running the tool; a timeout gives "Timeout"; a failure to run
    the tool gives a failure carrying the message of the exception. The
    return code of a tool that ran is not looked at: the result is what
    the diagnostic text yields, whatever the exit status. *)
Theorem analyze_audio_level_never_raises (h : Host.t) (file_path : string) :
  let w := Host.world h in
  let run := Host.analyze_audio_level float h file_path in
  match Host.exists_error h file_path with
  | Some msg => run = ([], inl (Error msg))
  | None =>
      exists r : Result,
        outcome run = inr r /\
        (path_exists w file_path = false ->
         r = Failure (path_name file_path) "Fichier non trouvé" /\
         trace run = []) /\
        (path_exists w file_path = true ->
         trace run = [EvRun (Volumedetect file_path)] /\
         match ffmpeg w (Volumedetect file_path) with
         | Expired => r = Failure (path_name file_path) "Timeout"
         | SpawnFailed msg => r = Failure (path_name file_path) msg
         | Completed returncode stderr => r = extract float file_path stderr
         end)
  end.
Proof.
  intros w0 run. subst run w0.
  rewrite host_analyze_audio_level_eq.
  destruct (Host.exists_error h file_path) as [msg |]; [reflexivity |].
  exists (measured float (Host.world h) file_path).
  rewrite analyze_audio_level_eq. unfold outcome, trace, measured. simpl.
  split; [reflexivity |].
  split; intro Hex; rewrite Hex; simpl.
  - split; reflexivity.
  - split; [reflexivity |].
    destruct (ffmpeg (Host.world h) (Volumedetect file_path)); reflexivity.
Qed.

End Extractor.

Lemma extractor_outcome_witness :
  let w := sample_world ["a.mp4"] tool_ok [] in
  let stderr :=
    ("[Parsed_volumedetect_0 @ 0x55d] mean_volume: -30.0 dB" ++ nl ++
     "[Parsed_volumedetect_0 @ 0x55d] max_volume: -4.5 dB" ++ nl)%string in
  let r := outcome (analyze_audio_level float_of_decimal w "videos/a.mp4") in
  (r = inr (Failure (path_name "videos/a.mp4") "Pas de piste audio") <->
   ~ pattern_present "mean_volume:" stderr \/
   ~ pattern_present "max_volume:" stderr) /\
  (pattern_present "mean_volume:" stderr ->
   pattern_present "max_volume:" stderr ->
   exists mean_group max_group,
     re_search "mean_volume:" stderr = Some mean_group /\
     re_search "max_volume:" stderr = Some max_group /\
     match float_of_decimal mean_group, float_of_decimal max_group with
     | Some mean_db, Some max_db =>
         r = inr (Measurement (path_name "videos/a.mp4")
                              (path_str "videos/a.mp4") mean_db max_db
                              (label (classify_level mean_db))
                              (color (classify_level mean_db))
                              (emoji (classify_level mean_db)))
     | None, _ =>
         r = inr (Failure (path_name "videos/a.mp4")
                          (could_not_convert mean_group))
     | Some _, None =>
         r = inr (Failure (path_name "videos/a.mp4")
                          (could_not_convert max_group))
     end).
Proof.
  intros w stderr.
  apply (extractor_outcome float_of_decimal w "videos/a.mp4" 0 stderr);
    reflexivity.
Defined.

(** C5, counterexample: both patterns are present in the diagnostic text,
    and the result is not a measurement but the failure of the conversion
    of the captured text ["1.2.3"]. *)
Lemma malformed_capture_is_a_failure :
  let w := sample_world ["a.mp4"] tool_malformed [] in
  let stderr :=
    ("mean_volume: 1.2.3 dB" ++ nl ++ "max_volume: 0.0 dB" ++ nl)%string in
  path_exists w "videos/a.mp4" = true /\
  ffmpeg w (Volumedetect "videos/a.mp4") = Completed 0 stderr /\
  pattern_present "mean_volume:" stderr /\
  pattern_present "max_volume:" stderr /\
  outcome (analyze_audio_level float_of_decimal w "videos/a.mp4") =
    inr (Failure "a.mp4" "could not convert string to float: '1.2.3'") /\
  ~ (exists mean_db max_db classification color emoji,
       outcome (analyze_audio_level float_of_decimal w "videos/a.mp4") =
       inr (Measurement "a.mp4" "videos/a.mp4" mean_db max_db
                        classification color emoji)).
Proof.
  repeat split.
  - apply re_search_present. eexists. vm_compute. reflexivity.
  - apply re_search_present. eexists. vm_compute. reflexivity.
  - intros (m & x & l & co & e & H). vm_compute in H. discriminate.
Qed.

(** C6, counterexample: the tool exits with a non-zero status. With no
    loudness lines in its text the failure is "Pas de piste audio", the
    kind [NoAudioStream] and not [ToolError]; with both lines in its text
    the result is a successful measurement. *)
Lemma nonzero_exit_is_not_a_tool_error :
  let w1 := sample_world ["a.mp4"] tool_no_audio [] in
  let w2 := sample_world ["a.mp4"] tool_late_failure [] in
  (exists stderr, ffmpeg w1 (Volumedetect "videos/a.mp4") = Completed 1 stderr) /\
  analyze_audio_level float_of_decimal w1 "videos/a.mp4" =
    ([EvRun (Volumedetect "videos/a.mp4")],
     inr (Failure "a.mp4" "Pas de piste audio")) /\
  failure_kind "Pas de piste audio" = NoAudioStream /\
  (forall msg, failure_kind "Pas de piste audio" <> ToolError msg) /\
  (exists stderr, ffmpeg w2 (Volumedetect "videos/a.mp4") = Completed 1 stderr) /\
  outcome (analyze_audio_level float_of_decimal w2 "videos/a.mp4") =
    inr (Measurement "a.mp4" "videos/a.mp4" (-300 # 10) (-45 # 10)
                     "MOYEN+" "#10b981" "🔊").
Proof.
  repeat split; try (eexists; reflexivity).
  intros msg H. vm_compute in H. discriminate.
Qed.

(** The existence check at work: on a host whose names hold 255 bytes
    at most, [analyze_audio_level] on a name of 300 letters raises the
    [OSError] of the check, and no result is returned. *)
Example long_name_escapes :
  let h := host_with_short_names (sample_world [] tool_ok []) in
  exists msg,
    Host.analyze_audio_level float_of_decimal h (long_name 300) =
      ([], inl (Error msg)) /\
    starts_with "[Errno 36] File name too long: 'aaa" msg = true.
Proof. eexists. split; vm_compute; reflexivity. Qed.

(** ** Sorting *)

Lemma leb_compare (a b : string) :
  String.leb a b = true <-> a = b \/ String_as_OT.lt a b.
Proof.
  unfold String.leb.
  rewrite <- String_as_OT.cmp_eq, <- String_as_OT.cmp_lt.
  unfold String_as_OT.cmp.
  destruct (String.compare a b); split; intro H;
    try reflexivity; try discriminate; auto.
  destruct H; discriminate.
Qed.

Lemma leb_refl (a : string) : String.leb a a = true.
Proof. apply leb_compare. now left. Qed.

Lemma leb_trans (a b c : string) :
  String.leb a b = true -> String.leb b c = true -> String.leb a c = true.
Proof.
  rewrite !leb_compare.
  intros [-> | Hab] [-> | Hbc]; auto.
  right. exact (String_as_OT.lt_trans _ _ _ Hab Hbc).
Qed.

Section SortingFacts.

Context {A : Type} (key : A -> string).

Lemma insert_by_perm (x : A) (l : list A) :
  Permutation (insert_by key x l) (x :: l).
Proof.
  induction l as [| y l IH]; simpl; [reflexivity |].
  destruct (String.leb (key x) (key y)); [reflexivity |].
  rewrite IH. apply perm_swap.
Qed.

Lemma sort_by_perm (l : list A) : Permutation (sort_by key l) l.
Proof.
  induction l as [| x l IH]; simpl; [reflexivity |].
  rewrite insert_by_perm. now constructor.
Qed.

Lemma insert_by_sorted (x : A) (l : list A) :
  StronglySorted (key_le key) l ->
  StronglySorted (key_le key) (insert_by key x l).
Proof.
  induction 1 as [| y l Hs IH Hy]; simpl.
  - constructor; constructor.
  - destruct (String.leb (key x) (key y)) eqn:E.
    + constructor; [now constructor |].
      constructor; [exact E |].
      eapply Forall_impl; [| exact Hy].
      intros z Hz. unfold key_le in *. eapply leb_trans; eassumption.
    + constructor; [exact IH |].
      eapply Permutation_Forall.
      * symmetry. apply insert_by_perm.
      * constructor; [| exact Hy].
        unfold key_le.
        destruct (String.leb_total (key x) (key y)) as [H | H];
          [congruence | exact H].
Qed.

Lemma sort_by_sorted (l : list A) : StronglySorted (key_le key) (sort_by key l).
Proof.
  induction l as [| x l IH]; simpl; [constructor |].
  now apply insert_by_sorted.
Qed.

End SortingFacts.

(** ** The worker pool *)

Lemma pick_perm {A} (i : nat) (l : list A) (x : A) (r : list A) :
  pick i l = Some (x, r) -> Permutation l (x :: r).
Proof.
  revert i x r. induction l as [| y l IH]; intros i x r; simpl.
  - discriminate.
  - destruct i as [| i]; simpl.
    + intro H. injection H as -> ->. reflexivity.
    + destruct (pick i l) as [[z r'] |] eqn:E; [| discriminate].
      intro H. injection H as -> <-.
      rewrite (IH _ _ _ E). apply perm_swap.
Qed.

Lemma pick_Some {A} (i : nat) (l : list A) :
  (i < List.length l)%nat -> exists x r, pick i l = Some (x, r).
Proof.
  revert i. induction l as [| y l IH]; intros i Hi; simpl in *.
  - lia.
  - destruct i as [| i]; [now exists y, l |].
    destruct (IH i) as (x & r & E); [lia |].
    rewrite E. now exists x, (y :: r).
Qed.

(** Whatever the width of the pool (at least one worker) and whatever
    the order in which workers finish, every submitted job is yielded
    exactly once. *)
Lemma as_completed_perm {A} (fuel width : nat) (running queue : list A)
      (order : list nat) :
  (1 <= width)%nat ->
  fuel = List.length (running ++ queue) ->
  Permutation (as_completed fuel width running queue order) (running ++ queue).
Proof.
  intro Hw. revert running queue order.
  induction fuel as [| fuel IH]; intros running queue order Hfuel; simpl.
  - symmetry in Hfuel. apply length_zero_iff_nil in Hfuel.
    rewrite Hfuel. reflexivity.
  - set (free := (width - List.length running)%nat).
    set (running' := running ++ firstn free queue).
    assert (Hsplit : running' ++ skipn free queue = running ++ queue).
    { unfold running'. rewrite <- app_assoc. now rewrite firstn_skipn. }
    assert (Hne : (0 < List.length running')%nat).
    { unfold running'. rewrite length_app.
      destruct running as [| r running]; simpl; [| lia].
      destruct queue as [| q queue]; simpl in Hfuel; [discriminate |].
      unfold free. simpl.
      destruct width as [| width]; [lia |]. simpl. lia. }
    destruct (pick_Some (hd 0%nat order mod List.length running') running')
      as (x & rest & E).
    { apply Nat.mod_upper_bound. lia. }
    rewrite E. apply pick_perm in E.
    rewrite <- Hsplit, E. simpl. constructor.
    apply IH.
    apply (f_equal (@List.length A)) in Hsplit.
    rewrite <- Hfuel in Hsplit. rewrite length_app in Hsplit.
    rewrite length_app.
    apply Permutation_length in E. simpl in E. lia.
Qed.

Section Batch.

Variable float : string -> option Q.
Variable w : World.

Lemma collect_returns (P : Event -> Prop) (futures : list (M Result))
      (results : list Result) (completed total : nat) :
  (forall m, In m futures -> exists r, outcome m = inr r) ->
  (forall m, In m futures -> Forall P (trace m)) ->
  (forall i n, P (EvPrint (MsgProgress i n))) ->
  exists t vs,
    collect futures results completed total = (t, inr (results ++ vs)) /\
    map (@inr exn Result) vs = map outcome futures /\
    Forall P t.
Proof.
  intros Hret HP Hprog. revert results completed.
  induction futures as [| m futures IH]; intros results completed;
    cbn [collect].
  - exists [], []. rewrite app_nil_r. repeat split. constructor.
  - destruct (Hret m (or_introl eq_refl)) as [r Hr].
    assert (Hm : Forall P (trace m)) by (apply HP; now left).
    destruct (IH (fun m' H => Hret m' (or_intror H))
                 (fun m' H => HP m' (or_intror H))
                 (results ++ [r]) (S completed))
      as (t & vs & Ht & Hvs & Hall).
    destruct m as [tm om]. simpl in Hr, Hm. subst om.
    rewrite bind_returned. unfold print_progress_bar.
    rewrite bind_print, Ht. simpl.
    exists (tm ++ EvPrint (MsgProgress (S completed) total) :: t), (r :: vs).
    repeat split.
    + now rewrite <- app_assoc.
    + simpl. now f_equal.
    + apply Forall_app. split; [exact Hm |]. constructor; [apply Hprog | exact Hall].
Qed.

Lemma get_fichier_measured (file_path : string) :
  get_fichier (measured float w file_path) = path_name file_path.
Proof.
  unfold measured, extract.
  destruct (path_exists w file_path); simpl; [| reflexivity].
  destruct (ffmpeg w (Volumedetect file_path)) as [rc stderr | | msg];
    try reflexivity.
  destruct (re_search "mean_volume:" stderr) as [g1 |]; [| reflexivity].
  destruct (re_search "max_volume:" stderr) as [g2 |]; [| reflexivity].
  destruct (float g1); [destruct (float g2) |]; reflexivity.
Qed.

Lemma analyze_audio_level_trace (file_path : string) :
  Forall not_a_correction (trace (analyze_audio_level float w file_path)).
Proof.
  rewrite analyze_audio_level_eq. unfold trace. simpl.
  destruct (path_exists w file_path); repeat constructor.
Qed.

Lemma analyze_folder_returns (folder : string) (extensions : list string)
      (workers : Z) :
  path_is_dir w folder = true ->
  discover w folder extensions <> [] ->
  (1 <= workers)%Z ->
  exists t results,
    analyze_folder float w folder extensions workers = (t, inr results) /\
    Permutation (map (@inr exn Result) results)
                (map (fun f => outcome (analyze_audio_level float w f))
                     (discover w folder extensions)) /\
    StronglySorted (key_le get_fichier) results /\
    Forall not_a_correction t.
Proof.
  intros Hdir Hfiles Hw.
  unfold analyze_folder. rewrite Hdir. cbv zeta. cbn [negb].
  remember (discover w folder extensions) as files eqn:Efiles.
  destruct files as [| f0 files']; [congruence |].
  cbv iota. clear Hfiles. generalize dependent (f0 :: files').
  intros files _.
  rewrite bind_print.
  destruct (workers <=? 0)%Z eqn:E; [apply Z.leb_le in E; lia |].
  set (futures := map (analyze_audio_level float w) files).
  set (done := as_completed (List.length futures) (Z.to_nat workers) []
                            futures (completion_order w)).
  assert (Hperm : Permutation done futures).
  { unfold done. apply (as_completed_perm _ _ [] futures); [lia | reflexivity]. }
  assert (Hin : forall m, In m done -> exists f, m = analyze_audio_level float w f).
  { intros m Hm. apply (Permutation_in _ Hperm) in Hm.
    unfold futures in Hm. apply in_map_iff in Hm.
    destruct Hm as (f & <- & _). now exists f. }
  destruct (collect_returns not_a_correction done [] 0%nat (List.length files))
    as (t & vs & Ht & Hvs & Hall).
  { intros m Hm. destruct (Hin m Hm) as [f ->].
    rewrite analyze_audio_level_eq. now eexists. }
  { intros m Hm. destruct (Hin m Hm) as [f ->].
    apply analyze_audio_level_trace. }
  { intros; exact I. }
  rewrite Ht. simpl.
  exists (EvPrint (MsgFilesFound (List.length files) folder) :: t ++ []),
         (sort_by get_fichier vs).
  repeat split.
  - rewrite (Permutation_map _ (sort_by_perm get_fichier vs)).
    rewrite Hvs. unfold futures in Hperm.
    rewrite (Permutation_map outcome Hperm). now rewrite map_map.
  - apply sort_by_sorted.
  - constructor; [exact I |]. now rewrite app_nil_r.
Qed.

End Batch.

(** ** Paths

    The path functions at the corners of [pathlib]: doubled and trailing
    slashes, [.] components, the roots [/] and [//], absolute second
    operands, names with and without a suffix. *)
Example pathlib_examples :
  (path_str "videos//a.mp4", path_name "videos//a.mp4", path_parent "videos//a.mp4") =
    ("videos/a.mp4", "a.mp4", "videos") /\
  (path_str "./videos/a.mp4", path_name "./videos/a.mp4", path_parent "./videos/a.mp4") =
    ("videos/a.mp4", "a.mp4", "videos") /\
  (path_str "a/b/", path_name "a/b/", path_parent "a/b/") =
    ("a/b", "b", "a") /\
  (path_str "//a", path_name "//a", path_parent "//a") =
    ("//a", "a", "//") /\
  (path_str "///a", path_name "///a", path_parent "///a") =
    ("/a", "a", "/") /\
  (path_str "", path_name "", path_parent "") =
    (".", "", ".") /\
  (path_str ".", path_name ".", path_parent ".") =
    (".", "", ".") /\
  (path_str "a/..", path_name "a/..", path_parent "a/..") =
    ("a/..", "..", "a") /\
  (path_str "/", path_name "/", path_parent "/") =
    ("/", "", "/") /\
  (path_str "//", path_name "//", path_parent "//") =
    ("//", "", "//") /\
  (path_str "/.", path_name "/.", path_parent "/.") =
    ("/", "", "/") /\
  (path_str "a", path_name "a", path_parent "a") =
    ("a", "a", ".") /\
  (path_str "..", path_name "..", path_parent "..") =
    ("..", "..", ".") /\
  joinpath "" "b" = "b" /\
  joinpath "/" "b" = "/b" /\
  joinpath "." "b" = "b" /\
  joinpath "./videos/" "a.mp4" = "videos/a.mp4" /\
  joinpath "a" "/b" = "/b" /\
  joinpath "a" "" = "a" /\
  joinpath "//x" "y" = "//x/y" /\
  joinpath "a" "./b/c" = "a/b/c" /\
  joinpath "a" ".." = "a/.." /\
  joinpath "a" "//b" = "//b" /\
  (path_stem ".bashrc", path_suffix ".bashrc") = (".bashrc", "") /\
  (path_stem "a.", path_suffix "a.") = ("a.", "") /\
  (path_stem "a.tar.gz", path_suffix "a.tar.gz") = ("a.tar", ".gz") /\
  (path_stem "dir/a.mp4", path_suffix "dir/a.mp4") = ("a", ".mp4") /\
  (path_stem "..", path_suffix "..") = ("..", "") /\
  (path_stem "a..b", path_suffix "a..b") = ("a.", ".b").
Proof. vm_compute. repeat split. Qed.

(** ** File discovery *)

Section Discovery.

Variable w : World.

Lemma in_glob (folder ext p : string) :
  In p (glob w folder ext) <->
  exists name, In name (listdir w folder) /\ ends_with ext name = true /\
               p = joinpath folder name.
Proof.
  unfold glob. rewrite in_map_iff. split.
  - intros (name & <- & Hin). apply filter_In in Hin.
    exists name. tauto.
  - intros (name & Hin & Hext & ->). exists name.
    split; [reflexivity |]. now apply filter_In.
Qed.

Lemma in_discover (folder : string) (extensions : list string) (p : string) :
  In p (discover w folder extensions) <->
  exists ext, In ext extensions /\
              (In p (glob w folder ext) \/ In p (glob w folder (upper ext))).
Proof.
  unfold discover.
  split.
  - intro H. apply (Permutation_in _ (sort_by_perm _ _)) in H.
    apply nodup_In in H. apply in_flat_map in H.
    destruct H as (ext & Hext & H). exists ext. split; [exact Hext |].
    now apply in_app_or.
  - intros (ext & Hext & H).
    apply (Permutation_in _ (Permutation_sym (sort_by_perm _ _))).
    apply nodup_In. apply in_flat_map. exists ext. split; [exact Hext |].
    now apply in_or_app.
Qed.

Lemma NoDup_discover (folder : string) (extensions : list string) :
  NoDup (discover w folder extensions).
Proof.
  unfold discover.
  eapply Permutation_NoDup.
  - symmetry. apply sort_by_perm.
  - apply NoDup_nodup.
Qed.

(** C8, as the code has it. For extensions that hold no wildcard
    character of [glob] and only ASCII characters (as the default ones
    do), discovery finds the entries of the folder whose name ends with
    a listed extension, written as listed or entirely in upper case, and
    nothing else; a path matched by more than one pattern is in the
    discovered file set exactly once. *)
Theorem discover_extensions (folder : string) (extensions : list string) :
  Forall (fun ext => plain_extension ext = true) extensions ->
  (forall p,
     In p (discover w folder extensions) <->
     exists name ext,
       In name (listdir w folder) /\ In ext extensions /\
       (ends_with ext name = true \/ ends_with (upper ext) name = true) /\
       p = joinpath folder name) /\
  NoDup (discover w folder extensions) /\
  (forall p, In p (discover w folder extensions) ->
             count_occ string_dec (discover w folder extensions) p = 1%nat).
Proof.
  intros _. split; [| split].
  - intro p. rewrite in_discover. split.
    + intros (ext & Hext & [H | H]); apply in_glob in H;
        destruct H as (name & Hname & Hends & ->);
        exists name, ext; tauto.
    + intros (name & ext & Hname & Hext & [H | H] & ->);
        exists ext; (split; [exact Hext |]);
        [left | right]; apply in_glob; exists name; tauto.
  - apply NoDup_discover.
  - intros p Hp. apply NoDup_count_occ'; [apply NoDup_discover | exact Hp].
Qed.

End Discovery.

Lemma discover_extensions_witness :
  let w := sample_world ["b.mp4"; "notes.txt"; "a.MP4"; "clip.Mp4"; "b.mp4"]
                        tool_ok [] in
  (forall p,
     In p (discover w "videos" default_extensions) <->
     exists name ext,
       In name (listdir w "videos") /\ In ext default_extensions /\
       (ends_with ext name = true \/ ends_with (upper ext) name = true) /\
       p = joinpath "videos" name) /\
  NoDup (discover w "videos" default_extensions) /\
  (forall p, In p (discover w "videos" default_extensions) ->
             count_occ string_dec (discover w "videos" default_extensions) p
             = 1%nat).
Proof.
  intro w.
  apply (discover_extensions w "videos" default_extensions).
  repeat constructor.
Defined.

(** C8, counterexample: the folder holds [clip.Mp4], which ends with the
    listed extension [.mp4] up to case, and discovery does not find it. *)
Lemma mixed_case_extension_is_not_found :
  let w := sample_world ["clip.Mp4"] tool_ok [] in
  In "clip.Mp4" (listdir w "videos") /\
  In ".mp4" default_extensions /\
  ends_with (lower ".mp4") (lower "clip.Mp4") = true /\
  discover w "videos" default_extensions = [] /\
  ~ In (joinpath "videos" "clip.Mp4") (discover w "videos" default_extensions).
Proof.
  repeat split.
  - now left.
  - now left.
  - intros [].
Qed.

(** ** Batch Scheduler *)

Section Scheduler.

Variable float : string -> option Q.
Variable w : World.


End Scheduler.



(** ** Correction Engine *)

Lemma expected_corrections_valid (mode : string) (value : Q)
      (output_dir : string) (results : list Result) :
  expected_corrections mode value output_dir (valid_results results) =
  expected_corrections mode value output_dir results.
Proof.
  induction results as [| r results IH]; simpl; [reflexivity |].
  destruct r; simpl; try exact IH. now f_equal.
Qed.

Lemma length_expected_corrections (mode : string) (value : Q)
      (output_dir : string) (results : list Result) :
  List.length (expected_corrections mode value output_dir results) =
  List.length (valid_results results).
Proof.
  induction results as [| r results IH]; simpl; [reflexivity |].
  destruct r; simpl; try exact IH. now f_equal.
Qed.

Lemma gains_expected_corrections (mode : string) (value : Q)
      (output_dir : string) (results : list Result) :
  gains (expected_corrections mode value output_dir results) =
  map (gain_for mode value) (means results).
Proof.
  induction results as [| r results IH]; simpl; [reflexivity |].
  destruct r; simpl; try exact IH. now f_equal.
Qed.

Lemma reported_counts_loop (t rest : list Event) :
  Forall loop_event t -> reported_counts (t ++ rest) = reported_counts rest.
Proof.
  induction 1 as [| e t He _ IH]; simpl; [reflexivity |].
  destruct e as [c | d | k p | m]; try contradiction.
  - exact IH.
  - destruct m; try contradiction. exact IH.
Qed.

Section Correction.

Variable w : World.

Lemma correct_each_cons (fichier chemin : string) (mean_db max_db : Q)
      (classification color emoji : string) (todo : list Result)
      (i total : nat) (mode : string) (value : Q) (output_dir : string)
      (success errors : nat) :
  let cmd := Volume chemin (gain_for mode value mean_db)
                    (joinpath output_dir fichier) in
  let next :=
    correct_each w todo (S i) total mode value output_dir
      (if correction_ok w cmd then S success else success)
      (if correction_ok w cmd then errors else S errors) in
  correct_each w
    (Measurement fichier chemin mean_db max_db classification color emoji
       :: todo) i total mode value output_dir success errors =
  (EvPrint (MsgProgress i total) :: EvRun cmd :: trace next, outcome next).
Proof.
  intros cmd next. cbn [correct_each item_niveau_moyen_db item_chemin item_fichier].
  assert (Hgain :
    (if String.eqb mode "normalize"
     then bind (ret mean_db) (fun mean_db0 => ret (value - mean_db0)%Q)
     else ret value) = ret (gain_for mode value mean_db)).
  { unfold gain_for. destruct (String.eqb mode "normalize");
      [now rewrite bind_ret | reflexivity]. }
  rewrite Hgain, !bind_ret. unfold print_progress_bar. rewrite bind_print.
  rewrite apply_audio_correction_eq, bind_returned.
  fold cmd. fold (correction_ok w cmd).
  unfold trace, outcome. simpl.
  subst next. destruct (correction_ok w cmd); reflexivity.
Qed.

Lemma correct_each_returns (todo : list Result) (i total : nat)
      (mode : string) (value : Q) (output_dir : string)
      (success errors : nat) :
  Forall (fun r => has_error r = false) todo ->
  exists t s e,
    correct_each w todo i total mode value output_dir success errors =
      (t, inr (s, e)) /\
    runs t = expected_corrections mode value output_dir todo /\
    Forall loop_event t /\
    s = (success + List.length (filter (correction_ok w) (runs t)))%nat /\
    e = (errors +
         List.length (filter (fun c => negb (correction_ok w c)) (runs t)))%nat.
Proof.
  intro Hvalid. revert i success errors.
  induction Hvalid as [| r todo Hr _ IH]; intros i success errors.
  - exists [], success, errors. simpl. repeat split; try lia. constructor.
  - destruct r as [f c m mx l co em | f err | err]; try discriminate.
    rewrite correct_each_cons.
    set (cmd := Volume c (gain_for mode value m) (joinpath output_dir f)).
    destruct (IH (S i)
                 (if correction_ok w cmd then S success else success)
                 (if correction_ok w cmd then errors else S errors))
      as (t & s & e & Heq & Hruns & Hloop & Hs & He).
    rewrite Heq. unfold trace, outcome. simpl.
    exists (EvPrint (MsgProgress i total) :: EvRun cmd :: t), s, e.
    split; [reflexivity |].
    split; [simpl; fold (runs t); now rewrite Hruns |].
    split; [repeat constructor; exact Hloop |].
    simpl. fold (runs t).
    destruct (correction_ok w cmd); simpl; lia.
Qed.

Lemma valid_results_valid (results : list Result) :
  Forall (fun r => has_error r = false) (valid_results results).
Proof.
  apply Forall_forall. intros r Hr. unfold valid_results in Hr.
  apply filter_In in Hr. destruct Hr as [_ Hr].
  now apply negb_true_iff in Hr.
Qed.

Lemma process_corrections_eq (results : list Result)
      (folder_path mode : string) (value : Q) :
  let output_dir := correction_dir folder_path mode value in
  (valid_results results = [] /\
   process_corrections w results folder_path mode value =
     ([EvPrint MsgNothingToCorrect], inr tt)) \/
  (valid_results results <> [] /\
   exists t,
     process_corrections w results folder_path mode value =
       (EvMkdir output_dir :: EvPrint (MsgCorrecting mode value output_dir)
          :: t ++
          [EvPrint (MsgCorrected
                      (List.length (filter (correction_ok w) (runs t)))
                      (List.length
                         (filter (fun c => negb (correction_ok w c)) (runs t)))
                      output_dir)],
        inr tt) /\
     runs t = expected_corrections mode value output_dir results /\
     Forall loop_event t).
Proof.
  intro output_dir. unfold process_corrections.
  destruct (valid_results results) as [| r0 valid'] eqn:E.
  - left. split; reflexivity.
  - right. split; [discriminate |].
    rewrite <- E. fold output_dir.
    destruct (correct_each_returns (valid_results results) 1
                (List.length (valid_results results)) mode value output_dir
                0 0 (valid_results_valid results))
      as (t & s & e & Heq & Hruns & Hloop & Hs & He).
    exists t. rewrite bind_tell, bind_print, Heq, bind_returned.
    unfold trace, outcome, print, tell. simpl.
    rewrite Hs, He, Hruns, expected_corrections_valid. simpl.
    repeat split. assumption.
Qed.

End Correction.

Section CorrectionEngine.

Variable w : World.

Lemma process_corrections_runs (results : list Result)
      (folder_path mode : string) (value : Q) :
  runs (trace (process_corrections w results folder_path mode value)) =
  expected_corrections mode value (correction_dir folder_path mode value)
                       results.
Proof.
  destruct (process_corrections_eq w results folder_path mode value)
    as [[Hnil ->] | [_ (t & -> & Hruns & _)]]; unfold trace; simpl.
  - now rewrite <- expected_corrections_valid, Hnil.
  - fold (runs (t ++ [EvPrint (MsgCorrected
                  (List.length (filter (correction_ok w) (runs t)))
                  (List.length
                     (filter (fun c => negb (correction_ok w c)) (runs t)))
                  (correction_dir folder_path mode value))])).
    rewrite runs_app, Hruns. simpl. apply app_nil_r.
Qed.

End CorrectionEngine.

(** *** Rounding *)










(** Python's floats at work: [-3.3], [46.7], [-3.3 - -50.0] and
    [-50.0 + 46.7], a tie that goes to the even significand, the
    smallest subnormal number. *)
Example round_double_examples :
  round_double (-33 # 10) = (-3715469692580659 # 1125899906842624)%Q /\
  round_double (467 # 10) = (3286220353096909 # 70368744177664)%Q /\
  double_sub (round_double (-33 # 10)) (-50) = round_double (467 # 10) /\
  round_double (-50 + round_double (467 # 10)) =
    (-232216855786291 # 70368744177664)%Q /\
  round_double (inject_Z (2 ^ 53 + 1)) = inject_Z (2 ^ 53) /\
  round_double (inject_Z (2 ^ 53 + 3)) = inject_Z (2 ^ 53 + 4) /\
  round_double (3 # (2 ^ 1075)) = (1 # (2 ^ 1073))%Q /\
  round_double (-24) = (-24)%Q /\
  overflows (2 ^ 1023 - - 2 ^ 1023) = true /\
  overflows ((-33 # 10) - -50) = false.
Proof. vm_compute. repeat split. Qed.

(** *** The engine on a host where creating the folder can fail *)

Lemma expected_double_corrections_valid (mode : string) (value : Q)
      (output_dir : string) (results : list Result) :
  expected_double_corrections mode value output_dir (valid_results results) =
  expected_double_corrections mode value output_dir results.
Proof.
  induction results as [| r results IH]; simpl; [reflexivity |].
  destruct r; simpl; try exact IH. now f_equal.
Qed.

Lemma length_expected_double_corrections (mode : string) (value : Q)
      (output_dir : string) (results : list Result) :
  List.length (expected_double_corrections mode value output_dir results) =
  List.length (valid_results results).
Proof.
  induction results as [| r results IH]; simpl; [reflexivity |].
  destruct r; simpl; try exact IH. now f_equal.
Qed.


Lemma targets_expected_double_corrections (mode : string) (value : Q)
      (output_dir : string) (results : list Result) :
  targets (expected_double_corrections mode value output_dir results) =
  expected_targets output_dir results.
Proof.
  induction results as [| r results IH]; simpl; [reflexivity |].
  destruct r; simpl; try exact IH. now f_equal.
Qed.

Lemma corrections_expected_double_corrections (mode : string) (value : Q)
      (output_dir : string) (results : list Result) :
  Forall (fun c => is_correction c = true)
         (expected_double_corrections mode value output_dir results).
Proof.
  induction results as [| r results IH]; simpl; [constructor |].
  destruct r; simpl; try exact IH. now constructor.
Qed.

Section HostCorrection.

Variable h : Host.t.

Lemma host_correct_each_cons (fichier chemin : string) (mean_db max_db : Q)
      (classification color emoji : string) (todo : list Result)
      (i total : nat) (mode : string) (value : Q) (output_dir : string)
      (success errors : nat) :
  let w := Host.world h in
  let cmd := Volume chemin (double_gain_for mode value mean_db)
                    (joinpath output_dir fichier) in
  let next :=
    Host.correct_each h todo (S i) total mode value output_dir
      (if correction_ok w cmd then S success else success)
      (if correction_ok w cmd then errors else S errors) in
  Host.correct_each h
    (Measurement fichier chemin mean_db max_db classification color emoji
       :: todo) i total mode value output_dir success errors =
  (EvPrint (MsgProgress i total) :: EvRun cmd :: trace next, outcome next).
Proof.
  intros w cmd next.
  cbn [Host.correct_each item_niveau_moyen_db item_chemin item_fichier].
  assert (Hgain :
    (if String.eqb mode "normalize"
     then bind (ret mean_db) (fun mean_db0 => ret (double_sub value mean_db0))
     else ret value) = ret (double_gain_for mode value mean_db)).
  { unfold double_gain_for. destruct (String.eqb mode "normalize");
      [now rewrite bind_ret | reflexivity]. }
  rewrite Hgain, !bind_ret. unfold print_progress_bar. rewrite bind_print.
  rewrite apply_audio_correction_eq, bind_returned.
  fold w. fold cmd. fold (correction_ok w cmd).
  unfold trace, outcome. simpl.
  subst next. destruct (correction_ok w cmd); reflexivity.
Qed.

Lemma host_correct_each_returns (todo : list Result) (i total : nat)
      (mode : string) (value : Q) (output_dir : string)
      (success errors : nat) :
  let w := Host.world h in
  Forall (fun r => has_error r = false) todo ->
  exists t s e,
    Host.correct_each h todo i total mode value output_dir success errors =
      (t, inr (s, e)) /\
    runs t = expected_double_corrections mode value output_dir todo /\
    Forall loop_event t /\
    s = (success + List.length (filter (correction_ok w) (runs t)))%nat /\
    e = (errors +
         List.length (filter (fun c => negb (correction_ok w c)) (runs t)))%nat.
Proof.
  intros w Hvalid. revert i success errors.
  induction Hvalid as [| r todo Hr _ IH]; intros i success errors.
  - exists [], success, errors. simpl. repeat split; try lia. constructor.
  - destruct r as [f c m mx l co em | f err | err]; try discriminate.
    rewrite host_correct_each_cons. fold w.
    set (cmd := Volume c (double_gain_for mode value m)
                       (joinpath output_dir f)).
    destruct (IH (S i)
                 (if correction_ok w cmd then S success else success)
                 (if correction_ok w cmd then errors else S errors))
      as (t & s & e & Heq & Hruns & Hloop & Hs & He).
    rewrite Heq. unfold trace, outcome. simpl.
    exists (EvPrint (MsgProgress i total) :: EvRun cmd :: t), s, e.
    split; [reflexivity |].
    split; [simpl; fold (runs t); now rewrite Hruns |].
    split; [repeat constructor; exact Hloop |].
    simpl. fold (runs t).
    destruct (correction_ok w cmd); simpl; lia.
Qed.

(** What [process_corrections] does with a finite value, case by case:
    nothing to correct; the folder cannot be created; the loop. *)
Lemma host_process_corrections_eq (results : list Result)
      (folder_path mode : string) (value : Q) :
  let w := Host.world h in
  let output_dir := correction_dir folder_path mode value in
  let run := Host.process_corrections h results folder_path mode
                                      (Host.Finite value) in
  (valid_results results = [] /\
   run = ([EvPrint MsgNothingToCorrect], inr tt)) \/
  (valid_results results <> [] /\
   exists msg, Host.mkdir_error h output_dir = Some msg /\
               run = ([EvMkdir output_dir], inl (Error msg))) \/
  (valid_results results <> [] /\
   Host.mkdir_error h output_dir = None /\
   exists t,
     run =
       (EvMkdir output_dir :: EvPrint (MsgCorrecting mode value output_dir)
          :: t ++
          [EvPrint (MsgCorrected
                      (List.length (filter (correction_ok w) (runs t)))
                      (List.length
                         (filter (fun c => negb (correction_ok w c)) (runs t)))
                      output_dir)],
        inr tt) /\
     runs t = expected_double_corrections mode value output_dir results /\
     Forall loop_event t).
Proof.
  intros w output_dir run. subst run. unfold Host.process_corrections.
  destruct (valid_results results) as [| r0 valid'] eqn:E.
  - left. split; reflexivity.
  - right. rewrite <- E. fold output_dir. unfold Host.mkdir.
    rewrite bind_tell.
    destruct (Host.mkdir_error h output_dir) as [msg |] eqn:Emk.
    + left. split; [rewrite E; discriminate |]. exists msg.
      split; reflexivity.
    + right. split; [rewrite E; discriminate |]. split; [reflexivity |].
      destruct (host_correct_each_returns (valid_results results) 1
                  (List.length (valid_results results)) mode value output_dir
                  0 0 (valid_results_valid results))
        as (t & s & e & Heq & Hruns & Hloop & Hs & He).
      exists t.
      change (trace (@ret unit tt)) with (@nil Event).
      change (outcome (@ret unit tt)) with (@inr exn unit tt).
      rewrite bind_returned, bind_print, Heq, bind_returned.
      unfold trace, outcome, print, tell. simpl.
      fold w in Hs, He.
      rewrite Hs, He, Hruns, expected_double_corrections_valid. simpl.
      repeat split. assumption.
Qed.

Lemma host_process_corrections_runs (results : list Result)
      (folder_path mode : string) (value : Q) :
  Host.mkdir_error h (correction_dir folder_path mode value) = None ->
  runs (trace (Host.process_corrections h results folder_path mode
                                        (Host.Finite value))) =
  expected_double_corrections mode value
    (correction_dir folder_path mode value) results.
Proof.
  intro Hmk.
  destruct (host_process_corrections_eq results folder_path mode value)
    as [[Hnil ->] | [[_ (msg & Hmsg & _)] | [_ (_ & t & -> & Hruns & _)]]];
    unfold trace; simpl.
  - now rewrite <- expected_double_corrections_valid, Hnil.
  - congruence.
  - fold (runs (t ++ [EvPrint (MsgCorrected
                  (List.length (filter (correction_ok (Host.world h)) (runs t)))
                  (List.length
                     (filter (fun c => negb (correction_ok (Host.world h) c))
                             (runs t)))
                  (correction_dir folder_path mode value))])).
    rewrite runs_app, Hruns. simpl. apply app_nil_r.
Qed.

End HostCorrection.


(** C9, as the code has it. With a finite value, on a host where the
    output folder can be created, [process_corrections] returns; it
    starts exactly one corrective transcode per error-free measurement,
    in order, from the measured file to the file of the same name in the
    output folder, and none for a failure; each transcode is counted
    once, as a success or as an error, so that the two counters of the
    summary add up to the number of error-free measurements. With no
    error-free measurement there is no transcode and no summary. *)
Theorem process_corrections_counts (h : Host.t) (results : list Result)
        (folder_path mode : string) (value : Q) :
  let w := Host.world h in
  let output_dir := correction_dir folder_path mode value in
  let run := Host.process_corrections h results folder_path mode
                                      (Host.Finite value) in
  let n := List.length (valid_results results) in
  Host.mkdir_error h output_dir = None ->
  outcome run = inr tt /\
  Forall (fun c => is_correction c = true) (runs (trace run)) /\
  targets (runs (trace run)) = expected_targets output_dir results /\
  List.length (runs (trace run)) = n /\
  (n = 0%nat -> reported_counts (trace run) = None) /\
  (n <> 0%nat ->
   exists success errors,
     reported_counts (trace run) = Some (success, errors) /\
     success = List.length (filter (correction_ok w) (runs (trace run))) /\
     errors = List.length (filter (fun c => negb (correction_ok w c))
                                  (runs (trace run))) /\
     (success + errors)%nat = n).
Proof.
  intros w output_dir run n Hmk.
  assert (Hruns := host_process_corrections_runs h results folder_path mode
                     value Hmk).
  fold run output_dir in Hruns.
  assert (Hlen : List.length (runs (trace run)) = n).
  { rewrite Hruns. apply length_expected_double_corrections. }
  split; [| split; [| split; [| split; [exact Hlen |]]]].
  - subst run.
    destruct (host_process_corrections_eq h results folder_path mode value)
      as [[_ ->] | [[_ (msg & Hmsg & _)] | [_ (_ & t & -> & _)]]];
      try reflexivity.
    fold output_dir in Hmsg. congruence.
  - rewrite Hruns. apply corrections_expected_double_corrections.
  - rewrite Hruns. apply targets_expected_double_corrections.
  - destruct (host_process_corrections_eq h results folder_path mode value)
      as [[Hnil Heq] | [[_ (msg & Hmsg & _)] | [Hne (_ & t & Heq & Ht & Hloop)]]].
    + split.
      * intros _. fold run in Heq. rewrite Heq. reflexivity.
      * intro Hn. exfalso. apply Hn. subst n. now rewrite Hnil.
    + fold output_dir in Hmsg. congruence.
    + split.
      * intro Hn. exfalso. subst n. apply length_zero_iff_nil in Hn.
        contradiction.
      * intros _. fold run output_dir w in Heq.
        assert (Hr : runs (trace run) = runs t).
        { rewrite Hruns. symmetry. exact Ht. }
        rewrite Hr in *. rewrite Heq. unfold trace. simpl.
        rewrite (reported_counts_loop t _ Hloop). simpl.
        eexists _, _. repeat split.
        rewrite filter_length. exact Hlen.
Qed.




Lemma process_corrections_counts_witness :
  let w := sample_world ["a.mp4"; "c.mp4"] tool_ok [] in
  let h := sample_host w in
  let output_dir := correction_dir "videos" "normalize" (-24) in
  let run := Host.process_corrections h sample_results "videos" "normalize"
                                      (Host.Finite (-24)) in
  let n := List.length (valid_results sample_results) in
  outcome run = inr tt /\
  Forall (fun c => is_correction c = true) (runs (trace run)) /\
  targets (runs (trace run)) = expected_targets output_dir sample_results /\
  List.length (runs (trace run)) = n /\
  (n = 0%nat -> reported_counts (trace run) = None) /\
  (n <> 0%nat ->
   exists success errors,
     reported_counts (trace run) = Some (success, errors) /\
     success = List.length (filter (correction_ok w) (runs (trace run))) /\
     errors = List.length (filter (fun c => negb (correction_ok w c))
                                  (runs (trace run))) /\
     (success + errors)%nat = n).
Proof.
  intros w h output_dir run n.
  apply (process_corrections_counts h sample_results "videos" "normalize"
           (-24)).
  reflexivity.
Defined.

(** C9, counterexample: two error-free measurements, and no corrective
    transcode. The folder in which the output folder is to be created
    does not exist: [mkdir] raises, the exception leaves
    [process_corrections] before the loop, and no summary is printed.
    With an infinite value, which [float] accepts on the command line,
    the exception comes from [int] and not even the folder is tried. *)
Lemma failed_mkdir_starts_no_transcode :
  let h := host_without_folder (sample_world ["a.mp4"; "c.mp4"] tool_ok []) in
  let run := Host.process_corrections h sample_results "nowhere" "normalize"
                                      (Host.Finite (-24)) in
  List.length (valid_results sample_results) = 2%nat /\
  run = ([EvMkdir "nowhere/normalized_24dB"],
         inl (Error ("[Errno 2] No such file or directory: " ++
                     "'nowhere/normalized_24dB'"))) /\
  runs (trace run) = [] /\
  reported_counts (trace run) = None /\
  Host.process_corrections h sample_results "videos" "boost"
                           (Host.Infinite false) =
    ([], inl (Error "cannot convert float infinity to integer")) /\
  Host.process_corrections h sample_results "videos" "normalize"
                           Host.NaN =
    ([], inl (Error "cannot convert float NaN to integer")).
Proof.
  vm_compute. repeat split.
Qed.

(** ** Command line *)

Lemma corrections_app (t1 t2 : list Event) :
  corrections (t1 ++ t2) = corrections t1 ++ corrections t2.
Proof. unfold corrections. now rewrite runs_app, filter_app. Qed.





Lemma corrections_process_corrections (w : World) (results : list Result)
      (folder_path mode : string) (value : Q) :
  corrections (trace (process_corrections w results folder_path mode value)) =
  expected_corrections mode value (correction_dir folder_path mode value)
                       results.
Proof.
  unfold corrections. rewrite process_corrections_runs.
  induction results as [| r results IH]; simpl; [reflexivity |].
  destruct r; simpl; try exact IH. now f_equal.
Qed.

Section CommandLine.

Variable float : string -> option Q.
Variable w : World.

Lemma correction_option_eq (flag : string) (invalid : Message)
      (argv : list string) :
  correction_option float flag invalid argv =
  match option_argument flag argv with
  | None => ret None
  | Some a =>
      match float a with
      | Some v => ret (Some v)
      | None => ([EvPrint invalid], inl (SystemExit 1))
      end
  end.
Proof.
  unfold correction_option, option_argument.
  destruct (in_argv flag argv); simpl; [| reflexivity].
  destruct (index flag argv + 1 <? List.length argv)%nat; [| reflexivity].
  destruct (float (nth (index flag argv + 1) argv "")); reflexivity.
Qed.

Lemma option_argument_length (flag : string) (argv : list string) (a : string) :
  option_argument flag argv = Some a -> (List.length argv <? 2)%nat = false.
Proof.
  unfold option_argument.
  destruct (in_argv flag argv); simpl; [| discriminate].
  destruct (index flag argv + 1 <? List.length argv)%nat eqn:E; [| discriminate].
  intros _. apply Nat.ltb_lt in E. apply Nat.ltb_ge. lia.
Qed.


(** C7, as the code has it. When [--normalize] or [--boost] is followed by
    an argument that [float] rejects, [main] prints the message for the
    invalid value and exits with status 1, and nothing else has
    happened: no analysis, no report, no correction. *)
Theorem invalid_correction_value_is_fatal (argv : list string) :
  (exists a, option_argument "--normalize" argv = Some a /\ float a = None) \/
  (exists a, option_argument "--boost" argv = Some a /\ float a = None) ->
  outcome (main float w argv) = inl (SystemExit 1) /\
  (trace (main float w argv) = [EvPrint MsgInvalidNormalize] \/
   trace (main float w argv) = [EvPrint MsgInvalidBoost]) /\
  runs (trace (main float w argv)) = [].
Proof.
  intro H.
  assert (Hlen : (List.length argv <? 2)%nat = false).
  { destruct H as [(a & Ha & _) | (a & Ha & _)];
      exact (option_argument_length _ _ _ Ha). }
  unfold main. rewrite Hlen, !correction_option_eq.
  destruct (option_argument "--normalize" argv) as [an |] eqn:En.
  - destruct (float an) as [n |] eqn:Fn.
    + destruct H as [(a & Ha & Fa) | (a & Ha & Fa)]; [congruence |].
      rewrite bind_ret, Ha, Fa. simpl. auto.
    + simpl. auto.
  - destruct H as [(a & Ha & Fa) | (a & Ha & Fa)]; [discriminate |].
    rewrite bind_ret, Ha, Fa. simpl. auto.
Qed.

End CommandLine.

Lemma invalid_correction_value_is_fatal_witness :
  let w := sample_world ["a.mp4"] tool_ok [] in
  let argv := ["audio_level_analyzer.py"; "videos"; "--boost"; "loud"] in
  outcome (main float_of_decimal w argv) = inl (SystemExit 1) /\
  (trace (main float_of_decimal w argv) = [EvPrint MsgInvalidNormalize] \/
   trace (main float_of_decimal w argv) = [EvPrint MsgInvalidBoost]) /\
  runs (trace (main float_of_decimal w argv)) = [].
Proof.
  intros w argv.
  apply (invalid_correction_value_is_fatal float_of_decimal w argv).
  right. exists "loud". split; reflexivity.
Defined.

(** C7, counterexample: [--normalize] is the last argument, its value is
    missing; [main] does not exit, it analyses the folder, writes the
    report and returns, with no correction. *)
Lemma missing_correction_value_is_ignored :
  let w := sample_world ["a.mp4"] tool_ok [] in
  let argv := ["audio_level_analyzer.py"; "videos"; "--normalize"] in
  in_argv "--normalize" argv = true /\
  option_argument "--normalize" argv = None /\
  outcome (main float_of_decimal w argv) = inr tt /\
  outcome (main float_of_decimal w argv) <> inl (SystemExit 1) /\
  runs (trace (main float_of_decimal w argv)) = [Volumedetect "videos/a.mp4"] /\
  In (EvWrite Html "videos/audio_report.html")
     (trace (main float_of_decimal w argv)).
Proof.
  repeat split.
  - vm_compute. discriminate.
  - vm_compute. tauto.
Qed.

Section Precedence.

Variable float : string -> option Q.
Variable w : World.


End Precedence.



(** * Further properties *)

(** ** One measurement, one correction *)

Lemma label_in_report_levels (mean_db : Q) :
  In (label (classify_level mean_db)) report_levels.
Proof.
  unfold classify_level, report_levels.
  repeat match goal with
         | |- context [if ?b then _ else _] => destruct b
         end; simpl; tauto.
Qed.

Lemma measured_Measurement (float : string -> option Q) (w : World)
      (file_path fichier chemin : string) (mean_db max_db : Q)
      (classification colour icon : string) :
  measured float w file_path =
    Measurement fichier chemin mean_db max_db classification colour icon ->
  path_exists w file_path = true /\
  fichier = path_name file_path /\
  chemin = path_str file_path /\
  classification = label (classify_level mean_db) /\
  colour = color (classify_level mean_db) /\
  icon = emoji (classify_level mean_db).
Proof.
  unfold measured, extract.
  destruct (path_exists w file_path); simpl; [| discriminate].
  destruct (ffmpeg w (Volumedetect file_path)) as [rc stderr | | msg];
    try discriminate.
  destruct (re_search "mean_volume:" stderr) as [g1 |]; [| discriminate].
  destruct (re_search "max_volume:" stderr) as [g2 |]; [| discriminate].
  destruct (float g1) as [x |]; [| discriminate].
  destruct (float g2) as [y |]; [| discriminate].
  intro H. injection H as <- <- <- <- <- <- <-. repeat split.
Qed.

Section OneMeasurement.

Variable float : string -> option Q.
Variable w : World.

(** X1. A successful result of [analyze_audio_level] is about the path it
    was asked for: [fichier] is the name of the path and [chemin] is
    [str(Path(file_path))], the path in the normalised form [pathlib] gives
    it. It carries the label, the colour and the icon of the band of its
    own mean level, and cost exactly one run of the detector, on the path
    as it was given. *)
Theorem measurement_is_consistent (file_path : string)
        (fichier chemin : string) (mean_db max_db : Q)
        (classification colour icon : string) :
  outcome (analyze_audio_level float w file_path) =
    inr (Measurement fichier chemin mean_db max_db classification
                     colour icon) ->
  fichier = path_name file_path /\
  chemin = path_str file_path /\
  classification = label (classify_level mean_db) /\
  colour = color (classify_level mean_db) /\
  icon = emoji (classify_level mean_db) /\
  In classification report_levels /\
  trace (analyze_audio_level float w file_path) =
    [EvRun (Volumedetect file_path)].
Proof.
  rewrite analyze_audio_level_eq. unfold outcome, trace. simpl.
  intro H. injection H as H.
  destruct (measured_Measurement _ _ _ _ _ _ _ _ _ _ H)
    as (Hex & Hf & Hc & Hl & Hco & He).
  rewrite Hex. repeat split; trivial.
  rewrite Hl. apply label_in_report_levels.
Qed.


End OneMeasurement.

Lemma measurement_is_consistent_witness :
  let w := sample_world ["a.mp4"] tool_ok [] in
  "a.mp4" = path_name "./videos//a.mp4" /\
  "videos/a.mp4" = path_str "./videos//a.mp4" /\
  "MOYEN+" = label (classify_level (-300 # 10)) /\
  "#10b981" = color (classify_level (-300 # 10)) /\
  "🔊" = emoji (classify_level (-300 # 10)) /\
  In "MOYEN+" report_levels /\
  trace (analyze_audio_level float_of_decimal w "./videos//a.mp4") =
    [EvRun (Volumedetect "./videos//a.mp4")].
Proof.
  intro w.
  apply (measurement_is_consistent float_of_decimal w "./videos//a.mp4"
           "a.mp4" "videos/a.mp4" (-300 # 10) (-45 # 10)
           "MOYEN+" "#10b981" "🔊").
  reflexivity.
Defined.

(** ** The report and the classifier *)

(** X12. The colour [classify_level] gives a band is the colour the report
    gives the label of that band in its distribution. *)
Theorem classify_level_color_is_level_color (mean_db : Q) :
  dict_get level_colors (label (classify_level mean_db)) =
  Some (color (classify_level mean_db)).
Proof.
  unfold classify_level.
  repeat match goal with
         | |- context [if ?b then _ else _] => destruct b
         end; reflexivity.
Qed.

Lemma py_max_cases (a b : Q) :
  ((a < b)%Q /\ py_max a b = b) \/ ((b <= a)%Q /\ py_max a b = a).
Proof.
  unfold py_max. destruct (Qltb a b) eqn:E.
  - left. split; [now apply Qltb_lt | reflexivity].
  - right. split; [now apply Qltb_ge | reflexivity].
Qed.

Lemma py_min_cases (a b : Q) :
  ((b < a)%Q /\ py_min a b = b) \/ ((a <= b)%Q /\ py_min a b = a).
Proof.
  unfold py_min. destruct (Qltb b a) eqn:E.
  - left. split; [now apply Qltb_lt | reflexivity].
  - right. split; [now apply Qltb_ge | reflexivity].
Qed.

Lemma bar_percent_cases (mean_db : Q) :
  ((mean_db <= -50)%Q /\ bar_percent mean_db == 0)%Q \/
  ((-50 < mean_db)%Q /\ (mean_db < 0)%Q /\
   (bar_percent mean_db == (mean_db + 50) * 2)%Q) \/
  ((0 <= mean_db)%Q /\ (bar_percent mean_db == 100)%Q).
Proof.
  unfold bar_percent.
  assert (Hx : ((mean_db + 50) / 50 * 100 == (mean_db + 50) * 2)%Q)
    by (field).
  destruct (py_max_cases ((mean_db + 50) / 50 * 100) 0) as [[H1 ->] | [H1 ->]].
  - left. rewrite Hx in H1.
    destruct (py_min_cases 0 100) as [[H2 ->] | [H2 ->]]; [lra |].
    split; [lra | reflexivity].
  - rewrite Hx in H1.
    destruct (py_min_cases ((mean_db + 50) / 50 * 100) 100)
      as [[H2 ->] | [H2 ->]]; rewrite ?Hx in H2.
    + right. right. split; [lra | reflexivity].
    + destruct (Qlt_le_dec (-50) mean_db) as [Hlt | Hle].
      * destruct (Qlt_le_dec mean_db 0) as [Hlt0 | Hle0].
        -- right. left. repeat split; trivial.
        -- right. right. split; [exact Hle0 |]. rewrite Hx. lra.
      * left. split; [exact Hle |]. rewrite Hx. lra.
Qed.

Lemma bar_percent_bounds (mean_db : Q) :
  (0 <= bar_percent mean_db)%Q /\ (bar_percent mean_db <= 100)%Q.
Proof.
  destruct (bar_percent_cases mean_db)
    as [[H1 H2] | [[H1 [H2 H3]] | [H1 H2]]]; split; lra.
Qed.

(** X14. The level bar of a file in the report is between 0 and 100 per
    cent: empty up to -50 dB, full from 0 dB on, two per cent for each
    decibel in between, and never shorter for a louder file. *)
Theorem bar_percent_clamped (mean_db : Q) :
  (0 <= bar_percent mean_db)%Q /\
  (bar_percent mean_db <= 100)%Q /\
  ((mean_db <= -50)%Q -> (bar_percent mean_db == 0)%Q) /\
  ((0 <= mean_db)%Q -> (bar_percent mean_db == 100)%Q) /\
  ((-50 <= mean_db)%Q -> (mean_db <= 0)%Q ->
   (bar_percent mean_db == (mean_db + 50) * 2)%Q) /\
  (forall louder, (mean_db <= louder)%Q ->
                  (bar_percent mean_db <= bar_percent louder)%Q).
Proof.
  assert (H := bar_percent_cases mean_db).
  repeat split.
  - destruct H as [[H1 H2] | [[H1 [H2 H3]] | [H1 H2]]]; lra.
  - destruct H as [[H1 H2] | [[H1 [H2 H3]] | [H1 H2]]]; lra.
  - intro Hle. destruct H as [[H1 H2] | [[H1 [H2 H3]] | [H1 H2]]]; lra.
  - intro Hge. destruct H as [[H1 H2] | [[H1 [H2 H3]] | [H1 H2]]]; lra.
  - intros Hlo Hhi. destruct H as [[H1 H2] | [[H1 [H2 H3]] | [H1 H2]]]; lra.
  - intros louder Hle. assert (H' := bar_percent_cases louder).
    destruct H as [[H1 H2] | [[H1 [H2 H3]] | [H1 H2]]];
      destruct H' as [[K1 K2] | [[K1 [K2 K3]] | [K1 K2]]]; lra.
Qed.

(** ** Sorted lists *)

Lemma sorted_perm_unique {A} (key : A -> string) (l1 l2 : list A) :
  StronglySorted (key_le key) l1 ->
  StronglySorted (key_le key) l2 ->
  Permutation l1 l2 ->
  NoDup (map key l1) ->
  l1 = l2.
Proof.
  intro H1. revert l2.
  induction H1 as [| x l1 Hs1 IH Hx]; intros l2 H2 Hperm Hnd.
  - apply Permutation_nil in Hperm. now subst.
  - destruct H2 as [| y l2 Hs2 Hy].
    + symmetry in Hperm. apply Permutation_nil in Hperm. discriminate.
    + assert (Hxy : x = y).
      { assert (Hin_y : In y (x :: l1)).
        { apply (Permutation_in _ (Permutation_sym Hperm)). now left. }
        assert (Hin_x : In x (y :: l2)).
        { apply (Permutation_in _ Hperm). now left. }
        destruct Hin_y as [E | Hin_y]; [exact E |].
        destruct Hin_x as [E | Hin_x]; [now symmetry |].
        rewrite Forall_forall in Hx, Hy.
        assert (Hk : key x = key y).
        { apply String.leb_antisym; [apply Hx | apply Hy]; assumption. }
        simpl in Hnd. apply NoDup_cons_iff in Hnd. destruct Hnd as [Hnd _].
        exfalso. apply Hnd. rewrite Hk. now apply in_map. }
      subst y. f_equal. apply IH; trivial.
      * now apply Permutation_cons_inv in Hperm.
      * simpl in Hnd. now apply NoDup_cons_iff in Hnd.
Qed.

Lemma sorted_same_members (l1 l2 : list string) :
  StronglySorted (key_le (fun s => s)) l1 ->
  StronglySorted (key_le (fun s => s)) l2 ->
  NoDup l1 -> NoDup l2 ->
  (forall p, In p l1 <-> In p l2) ->
  l1 = l2.
Proof.
  intros H1 H2 N1 N2 Hmem.
  apply (sorted_perm_unique (fun s => s)); trivial.
  - now apply NoDup_Permutation.
  - now rewrite map_id.
Qed.

(** ** Discovery *)

Lemma discover_sorted (w : World) (folder : string)
      (extensions : list string) :
  StronglySorted (key_le (fun s => s)) (discover w folder extensions).
Proof. unfold discover. apply sort_by_sorted. Qed.

(** X5. The discovered file set is in ascending order of path, and it
    depends neither on the order in which the folder lists its entries
    nor on the order or the repetitions of the extension list: two
    listings with the same entries and two extension lists with the same
    extensions give the same file list. *)
Theorem discover_order_independent (w w' : World) (folder : string)
        (extensions extensions' : list string) :
  (forall name, In name (listdir w folder) <-> In name (listdir w' folder)) ->
  (forall ext, In ext extensions <-> In ext extensions') ->
  discover w' folder extensions' = discover w folder extensions /\
  StronglySorted (fun a b => String.leb a b = true)
                 (discover w folder extensions).
Proof.
  intros Hlist Hext. split; [| apply discover_sorted].
  apply sorted_same_members; try apply discover_sorted;
    try apply NoDup_discover.
  intro p. rewrite !in_discover. split.
  - intros (ext & He & H). exists ext. split; [now apply Hext |].
    rewrite !in_glob in *.
    destruct H as [(n & Hn & H) | (n & Hn & H)]; [left | right];
      exists n; (split; [now apply Hlist | exact H]).
  - intros (ext & He & H). exists ext. split; [now apply Hext |].
    rewrite !in_glob in *.
    destruct H as [(n & Hn & H) | (n & Hn & H)]; [left | right];
      exists n; (split; [now apply Hlist | exact H]).
Qed.

Lemma discover_order_independent_witness :
  let w := sample_world ["b.mp4"; "a.MP4"; "c.mkv"] tool_ok [] in
  let w' := sample_world ["c.mkv"; "a.MP4"; "b.mp4"; "a.MP4"] tool_ok [] in
  discover w' "videos" [".mkv"; ".mp4"; ".mkv"] =
  discover w "videos" [".mp4"; ".mkv"] /\
  StronglySorted (fun a b => String.leb a b = true)
                 (discover w "videos" [".mp4"; ".mkv"]).
Proof.
  intros w w'.
  apply (discover_order_independent w w' "videos"
           [".mp4"; ".mkv"] [".mkv"; ".mp4"; ".mkv"]).
  - intro name. simpl. tauto.
  - intro ext. simpl. tauto.
Defined.

(** ** The batch *)

Section BatchFacts.

Variable float : string -> option Q.
Variable w : World.

Lemma collect_runs (futures : list (M Result)) (results : list Result)
      (completed total : nat) :
  (forall m, In m futures -> exists r, outcome m = inr r) ->
  runs (trace (collect futures results completed total)) =
  flat_map (fun m => runs (trace m)) futures.
Proof.
  intro Hret. revert results completed.
  induction futures as [| m futures IH]; intros results completed;
    cbn [collect flat_map].
  - reflexivity.
  - destruct (Hret m (or_introl eq_refl)) as [r Hr].
    destruct m as [tm om]. simpl in Hr. subst om.
    rewrite bind_returned. unfold print_progress_bar. rewrite bind_print.
    unfold trace at 1. cbn [fst]. rewrite runs_app. f_equal.
    unfold trace at 1. cbn [fst].
    change (EvPrint ?m :: ?t) with ([EvPrint m] ++ t).
    rewrite runs_app. simpl.
    apply IH. intros m' Hm'. apply Hret. now right.
Qed.

Lemma analyze_folder_eq (folder : string) (extensions : list string)
      (workers : Z) :
  path_is_dir w folder = true ->
  discover w folder extensions <> [] ->
  (1 <= workers)%Z ->
  let files := discover w folder extensions in
  let futures := map (analyze_audio_level float w) files in
  analyze_folder float w folder extensions workers =
  (print (MsgFilesFound (List.length files) folder) ;;
   results <- collect (as_completed (List.length futures) (Z.to_nat workers)
                                    [] futures (completion_order w))
                      [] 0%nat (List.length files) ;;
   ret (sort_by get_fichier results)).
Proof.
  intros Hdir Hfiles Hw. cbv zeta.
  unfold analyze_folder. rewrite Hdir. cbv zeta. cbn [negb].
  destruct (discover w folder extensions) as [| f0 files'] eqn:E;
    [congruence |].
  destruct (workers <=? 0)%Z eqn:Ew; [apply Z.leb_le in Ew; lia |].
  reflexivity.
Qed.

Lemma as_completed_jobs (folder : string) (extensions : list string)
      (workers : Z) :
  (1 <= workers)%Z ->
  let futures := map (analyze_audio_level float w)
                     (discover w folder extensions) in
  Permutation (as_completed (List.length futures) (Z.to_nat workers) []
                            futures (completion_order w))
              futures.
Proof.
  intros Hw futures.
  apply (as_completed_perm _ _ [] futures); [lia | reflexivity].
Qed.

Lemma futures_return (l : list (M Result)) (files : list string) :
  Permutation l (map (analyze_audio_level float w) files) ->
  forall m, In m l -> exists r, outcome m = inr r.
Proof.
  intros Hperm m Hm. apply (Permutation_in _ Hperm) in Hm.
  apply in_map_iff in Hm. destruct Hm as (f & <- & _).
  rewrite analyze_audio_level_eq. now eexists.
Qed.

(** X3. In an existing folder, with at least one worker, [analyze_folder]
    runs the detector once for each discovered file (that still exists)
    and starts no other external process, whatever the width of the pool
    and the order of completion. *)
Theorem analyze_folder_measures_each_file_once (folder : string)
        (extensions : list string) (workers : Z) :
  path_is_dir w folder = true ->
  (1 <= workers)%Z ->
  Permutation
    (runs (trace (analyze_folder float w folder extensions workers)))
    (map Volumedetect
         (filter (path_exists w) (discover w folder extensions))).
Proof.
  intros Hdir Hw.
  destruct (discover w folder extensions) as [| f0 files'] eqn:E.
  - unfold analyze_folder. rewrite Hdir, E. reflexivity.
  - rewrite analyze_folder_eq by (trivial; rewrite E; discriminate).
    rewrite E. rewrite <- E.
    set (files := discover w folder extensions).
    assert (Hperm := as_completed_jobs folder extensions workers Hw).
    cbv zeta in Hperm. fold files in Hperm.
    set (done := as_completed _ _ _ _ _) in *.
    rewrite bind_print. unfold trace at 1. cbn [fst].
    change (EvPrint ?m :: ?t) with ([EvPrint m] ++ t).
    rewrite runs_app. cbn [runs flat_map app].
    fold (runs (trace
      (results <- collect done [] 0%nat (Datatypes.length files);;
       ret (sort_by get_fichier results)))).
    assert (Hret := futures_return done files Hperm).
    destruct (collect_returns (fun _ => True) done [] 0%nat
                (List.length files) Hret)
      as (t & vs & Hcol & _ & _).
    { intros. apply Forall_forall. trivial. }
    { trivial. }
    assert (Hruns := collect_runs done [] 0%nat (List.length files) Hret).
    rewrite Hcol in Hruns |- *. rewrite bind_returned.
    unfold trace at 1. cbn [fst]. rewrite runs_app. simpl (runs (trace (ret _))).
    rewrite app_nil_r. unfold trace in Hruns at 1. cbn [fst] in Hruns.
    rewrite Hruns.
    rewrite (Permutation_flat_map _ Hperm).
    clear. induction files as [| f files IH]; simpl; [reflexivity |].
    rewrite analyze_audio_level_eq. unfold trace at 1. cbn [fst].
    destruct (path_exists w f); simpl; [constructor |]; exact IH.
Qed.

End BatchFacts.

Lemma analyze_folder_measures_each_file_once_witness :
  let w := sample_world ["b.mp4"; "notes.txt"; "a.MP4"; "c.mkv"] tool_ok
                        [2; 0; 1]%nat in
  Permutation
    (runs (trace (analyze_folder float_of_decimal w "videos"
                                 default_extensions 2)))
    (map Volumedetect
         (filter (path_exists w) (discover w "videos" default_extensions))).
Proof.
  intro w.
  apply (analyze_folder_measures_each_file_once float_of_decimal w "videos"
           default_extensions 2).
  - reflexivity.
  - lia.
Defined.

Lemma map_inr_inj {E A} (a b : list A) :
  map (@inr E A) a = map (@inr E A) b -> a = b.
Proof.
  revert b. induction a as [| x a IH]; intros [| y b] H; simpl in H;
    try discriminate; [reflexivity |].
  injection H as -> H. f_equal. now apply IH.
Qed.

Lemma Permutation_map_inr {E A} (a b : list A) :
  Permutation (map (@inr E A) a) (map (@inr E A) b) -> Permutation a b.
Proof.
  intro H. apply Permutation_map_inv in H. destruct H as (c & Hc & Hperm).
  apply map_inr_inj in Hc. subst c. now symmetry.
Qed.

Section OrderIndependence.

Variable float : string -> option Q.
Variable w : World.

Lemma result_names (files : list string) (results : list Result) :
  Permutation (map (@inr exn Result) results)
              (map (fun f => outcome (analyze_audio_level float w f)) files) ->
  Permutation (map get_fichier results) (map path_name files).
Proof.
  intro Hperm.
  pose (name := fun o : exn + Result =>
                  match o with inr r => get_fichier r | inl _ => "" end).
  apply (Permutation_map name) in Hperm.
  rewrite !map_map in Hperm. simpl in Hperm.
  erewrite (map_ext _ path_name) in Hperm; [exact Hperm |].
  intro f. rewrite analyze_audio_level_eq. simpl.
  apply get_fichier_measured.
Qed.

(** X4. The list [analyze_folder] returns does not depend on the width of
    the pool nor on the order in which the workers finish, as long as the
    discovered files have distinct display names. *)
Theorem analyze_folder_order_independent (folder : string)
        (extensions : list string) (workers workers' : Z)
        (order' : list nat) :
  (1 <= workers)%Z ->
  (1 <= workers')%Z ->
  NoDup (map path_name (discover w folder extensions)) ->
  outcome (analyze_folder float (with_order w order') folder extensions
                          workers') =
  outcome (analyze_folder float w folder extensions workers).
Proof.
  intros Hw Hw' Hnd.
  destruct (path_is_dir w folder) eqn:Hdir.
  - destruct (discover w folder extensions) as [| f0 files'] eqn:E.
    + unfold analyze_folder.
      change (path_is_dir (with_order w order') folder)
        with (path_is_dir w folder).
      change (discover (with_order w order') folder extensions)
        with (discover w folder extensions).
      rewrite Hdir, E. reflexivity.
    + rewrite <- E in Hnd.
      assert (Hne : discover w folder extensions <> [])
        by (rewrite E; discriminate).
      destruct (analyze_folder_returns float w folder extensions workers
                  Hdir Hne Hw)
        as (t & results & Heq & Hperm & Hsorted & _).
      destruct (analyze_folder_returns float (with_order w order') folder
                  extensions workers' Hdir Hne Hw')
        as (t' & results' & Heq' & Hperm' & Hsorted' & _).
      rewrite Heq, Heq'. unfold outcome. simpl. f_equal.
      change (discover (with_order w order') folder extensions)
        with (discover w folder extensions) in Hperm'.
      change (fun f => outcome (analyze_audio_level float
                                  (with_order w order') f))
        with (fun f => outcome (analyze_audio_level float w f)) in Hperm'.
      apply (sorted_perm_unique get_fichier); trivial.
      * apply (@Permutation_map_inr exn).
        rewrite Hperm'. now symmetry.
      * eapply Permutation_NoDup; [| exact Hnd].
        symmetry. now apply result_names.
  - unfold analyze_folder.
    change (path_is_dir (with_order w order') folder)
      with (path_is_dir w folder).
    rewrite Hdir. reflexivity.
Qed.

End OrderIndependence.

Lemma analyze_folder_order_independent_witness :
  let w := sample_world ["b.mp4"; "notes.txt"; "a.MP4"; "c.mkv"] tool_ok
                        [2; 0; 1]%nat in
  outcome (analyze_folder float_of_decimal (with_order w [0; 1; 0]%nat)
                          "videos" default_extensions 1) =
  outcome (analyze_folder float_of_decimal w "videos" default_extensions 3).
Proof.
  intro w.
  apply (analyze_folder_order_independent float_of_decimal w "videos"
           default_extensions 3 1 [0; 1; 0]%nat).
  - lia.
  - lia.
  - vm_compute. repeat constructor; simpl; intuition discriminate.
Defined.

(** ** Traces *)

Lemma trace_bind {A B} (m : M A) (a : A) (k : A -> M B) :
  outcome m = inr a -> trace (bind m k) = trace m ++ trace (k a).
Proof.
  destruct m as [t o]. unfold outcome at 1. cbn [snd]. intros ->.
  now rewrite bind_returned.
Qed.

Lemma outcome_bind {A B} (m : M A) (a : A) (k : A -> M B) :
  outcome m = inr a -> outcome (bind m k) = outcome (k a).
Proof.
  destruct m as [t o]. unfold outcome at 1. cbn [snd]. intros ->.
  now rewrite bind_returned.
Qed.

Lemma loop_event_correction_event (e : Event) :
  loop_event e -> correction_event e.
Proof.
  destruct e as [[i | i g o] | d | k p | m]; simpl; try tauto.
  destruct m; tauto.
Qed.

Lemma mkdirs_loop (t : list Event) : Forall loop_event t -> mkdirs t = [].
Proof.
  induction 1 as [| e t He _ IH]; [reflexivity |].
  destruct e as [[i | i g o] | d | k p | m]; simpl in *; try contradiction;
    exact IH.
Qed.

Lemma mkdirs_app (t1 t2 : list Event) :
  mkdirs (t1 ++ t2) = mkdirs t1 ++ mkdirs t2.
Proof. unfold mkdirs. apply flat_map_app. Qed.

Lemma writes_app (t1 t2 : list Event) :
  writes (t1 ++ t2) = writes t1 ++ writes t2.
Proof. unfold writes. apply flat_map_app. Qed.

Lemma summaries_app (t1 t2 : list Event) :
  summaries (t1 ++ t2) = summaries t1 ++ summaries t2.
Proof. unfold summaries. apply flat_map_app. Qed.

Lemma analysis_quiet (t : list Event) :
  Forall analysis_event t ->
  corrections t = [] /\ mkdirs t = [] /\ writes t = [] /\ summaries t = [].
Proof.
  induction 1 as [| e t He _ (IH1 & IH2 & IH3 & IH4)];
    [repeat split |].
  destruct e as [[i | i g o] | d | k p | m]; simpl in He; try contradiction.
  - repeat split; assumption.
  - destruct m; try contradiction; repeat split; assumption.
Qed.

Lemma correction_quiet (t : list Event) :
  Forall correction_event t -> writes t = [] /\ summaries t = [].
Proof.
  induction 1 as [| e t He _ (IH1 & IH2)]; [repeat split |].
  destruct e as [[i | i g o] | d | k p | m]; simpl in He; try contradiction.
  - split; assumption.
  - split; assumption.
  - destruct m; try contradiction; split; assumption.
Qed.

Section MoreBatchFacts.

Variable float : string -> option Q.
Variable w : World.

Lemma analyze_audio_level_events (file_path : string) :
  Forall analysis_event (trace (analyze_audio_level float w file_path)).
Proof.
  rewrite analyze_audio_level_eq. unfold trace. simpl.
  destruct (path_exists w file_path); repeat constructor.
Qed.

Lemma analyze_folder_events (folder : string) (extensions : list string)
      (workers : Z) :
  (1 <= workers)%Z ->
  exists t results,
    analyze_folder float w folder extensions workers = (t, inr results) /\
    Forall analysis_event t /\
    (path_is_dir w folder = true ->
     discover w folder extensions <> [] ->
     Permutation (map (@inr exn Result) results)
                 (map (fun f => outcome (analyze_audio_level float w f))
                      (discover w folder extensions))).
Proof.
  intro Hw.
  destruct (path_is_dir w folder) eqn:Hdir.
  - destruct (discover w folder extensions) as [| f0 files'] eqn:E.
    + unfold analyze_folder. rewrite Hdir, E. simpl.
      eexists _, _. split; [reflexivity |]. split; [constructor |].
      intros _ H. congruence.
    + assert (Hne : discover w folder extensions <> [])
        by (rewrite E; discriminate).
      rewrite <- E. clear E f0 files'.
      rewrite analyze_folder_eq by trivial.
      set (files := discover w folder extensions).
      assert (Hperm := as_completed_jobs float w folder extensions workers Hw).
      cbv zeta in Hperm. fold files in Hperm.
      set (done := as_completed _ _ _ _ _) in *.
      assert (Hret := futures_return float w done files Hperm).
      destruct (collect_returns analysis_event done [] 0%nat
                  (List.length files) Hret)
        as (t & vs & Hcol & Hvs & Hall).
      { intros m Hm. apply (Permutation_in _ Hperm) in Hm.
        apply in_map_iff in Hm. destruct Hm as (f & <- & _).
        apply analyze_audio_level_events. }
      { intros; exact I. }
      rewrite bind_print, Hcol, bind_returned. unfold trace, outcome. simpl.
      eexists _, _. split; [reflexivity |]. split.
      * constructor; [exact I |]. now rewrite app_nil_r.
      * intros _ _.
        rewrite (Permutation_map _ (sort_by_perm get_fichier vs)).
        rewrite Hvs. rewrite (Permutation_map outcome Hperm).
        now rewrite map_map.
  - unfold analyze_folder. rewrite Hdir. simpl.
    eexists _, _. split; [reflexivity |]. split; [constructor |].
    intro H. discriminate.
Qed.

Lemma process_corrections_events (results : list Result)
      (folder_path mode : string) (value : Q) :
  outcome (process_corrections w results folder_path mode value) = inr tt /\
  Forall correction_event
         (trace (process_corrections w results folder_path mode value)).
Proof.
  destruct (process_corrections_eq w results folder_path mode value)
    as [[_ ->] | [_ (t & -> & _ & Hloop)]]; unfold trace, outcome; simpl.
  - split; [reflexivity |]. repeat constructor.
  - split; [reflexivity |].
    constructor; [exact I |]. constructor; [exact I |].
    apply Forall_app. split.
    + eapply Forall_impl; [| exact Hloop]. apply loop_event_correction_event.
    + repeat constructor.
Qed.

(** X6. [process_corrections] creates the output folder only when there is
    at least one error-free result, once, and before anything else: with
    no error-free result it only says that there is nothing to correct
    and touches nothing. *)
Theorem process_corrections_output_folder (results : list Result)
        (folder_path mode : string) (value : Q) :
  let run := process_corrections w results folder_path mode value in
  let output_dir := correction_dir folder_path mode value in
  (valid_results results = [] ->
   trace run = [EvPrint MsgNothingToCorrect]) /\
  (valid_results results <> [] ->
   mkdirs (trace run) = [output_dir] /\
   hd_error (trace run) = Some (EvMkdir output_dir)).
Proof.
  intros run output_dir. subst run.
  destruct (process_corrections_eq w results folder_path mode value)
    as [[Hnil ->] | [Hne (t & -> & _ & Hloop)]]; unfold trace; simpl.
  - split; [reflexivity |]. intro H. contradiction.
  - split; [intro H; contradiction |]. intros _.
    split; [| reflexivity].
    fold (mkdirs (t ++ [EvPrint (MsgCorrected
                  (List.length (filter (correction_ok w) (runs t)))
                  (List.length
                     (filter (fun c => negb (correction_ok w c)) (runs t)))
                  (correction_dir folder_path mode value))])).
    rewrite mkdirs_app, (mkdirs_loop t Hloop). reflexivity.
Qed.

End MoreBatchFacts.

Lemma correction_dir_opp (folder : string) (value : Q) :
  correction_dir folder "normalize" (- value) =
  correction_dir folder "normalize" value.
Proof.
  unfold correction_dir. simpl.
  destruct value as [n d]. unfold Qabs, Qopp. simpl.
  now rewrite Z.abs_opp.
Qed.

Lemma outputs_expected_corrections (mode : string) (value value' : Q)
      (output_dir : string) (results : list Result) :
  outputs (expected_corrections mode value output_dir results) =
  outputs (expected_corrections mode value' output_dir results).
Proof.
  induction results as [| r results IH]; simpl; [reflexivity |].
  destruct r; simpl; try exact IH. now f_equal.
Qed.

(** X7. The output folder of a normalization is named after the integer
    part of the absolute value of the target: normalizing to [-v] and to
    [v] writes the same files in the same folder, the later run over the
    earlier one. *)
Theorem normalize_outputs_ignore_sign (w : World) (results : list Result)
        (folder_path : string) (value : Q) :
  correction_dir folder_path "normalize" (- value) =
  correction_dir folder_path "normalize" value /\
  outputs (runs (trace (process_corrections w results folder_path
                                            "normalize" (- value)))) =
  outputs (runs (trace (process_corrections w results folder_path
                                            "normalize" value))).
Proof.
  split; [apply correction_dir_opp |].
  rewrite !process_corrections_runs, correction_dir_opp.
  apply outputs_expected_corrections.
Qed.

(** ** The command line, continued *)

Section MainFacts.

Variable float : string -> option Q.
Variable w : World.

Lemma correction_option_valid (flag : string) (invalid : Message)
      (argv : list string) :
  (forall a, option_argument flag argv = Some a -> float a <> None) ->
  correction_option float flag invalid argv = ret (option_value float flag argv).
Proof.
  intro H. rewrite correction_option_eq. unfold option_value.
  destruct (option_argument flag argv) as [a |]; [| reflexivity].
  specialize (H a eq_refl). destruct (float a); [reflexivity | congruence].
Qed.

Lemma main_file_facts (argv : list string) :
  (2 <= List.length argv)%nat ->
  options_valid float argv ->
  let target := nth 1 argv "" in
  path_is_file w target = true ->
  outcome (main float w argv) = inr tt /\
  writes (trace (main float w argv)) = [] /\
  summaries (trace (main float w argv)) = [] /\
  mkdirs (trace (main float w argv)) = [] /\
  corrections (trace (main float w argv)) =
    match measured float w target with
    | Measurement _ _ mean_db _ _ _ _ =>
        file_correction target mean_db
          (option_value float "--normalize" argv)
          (option_value float "--boost" argv)
    | _ => []
    end.
Proof.
  intros Hlen [Hn Hb] target Hfile.
  apply Nat.ltb_ge in Hlen.
  unfold main. rewrite Hlen.
  rewrite (correction_option_valid _ _ _ Hn), (correction_option_valid _ _ _ Hb).
  rewrite !bind_ret. fold target. rewrite Hfile.
  rewrite bind_print, analyze_audio_level_eq, bind_returned.
  unfold trace, outcome. cbn [fst snd].
  destruct (analysis_quiet _ (analyze_audio_level_events float w target))
    as (Q1 & Q2 & Q3 & Q4).
  rewrite analyze_audio_level_eq in Q1, Q2, Q3, Q4.
  unfold trace in Q1, Q2, Q3, Q4. cbn [fst] in Q1, Q2, Q3, Q4.
  change (EvPrint ?m :: ?t) with ([EvPrint m] ++ t).
  rewrite !writes_app, !summaries_app, !mkdirs_app, !corrections_app.
  rewrite Q1, Q2, Q3, Q4. cbn [app].
  change (writes [EvPrint (MsgAnalysing (path_name target))]) with
    (@nil (Report * string)).
  change (summaries [EvPrint (MsgAnalysing (path_name target))]) with
    (@nil (nat * nat)).
  change (mkdirs [EvPrint (MsgAnalysing (path_name target))]) with
    (@nil string).
  change (corrections [EvPrint (MsgAnalysing (path_name target))]) with
    (@nil Cmd).
  cbn [app].
  destruct (measured float w target) as [f c m mx l co em | f err | err];
    try (repeat split; reflexivity).
  rewrite bind_print. cbn [fst snd].
  destruct (option_value float "--normalize" argv) as [n |].
  - rewrite bind_print, apply_audio_correction_eq, bind_returned.
    cbn [fst snd].
    match goal with
    | |- context [if ?b then _ else _] => destruct b
    end; repeat split; reflexivity.
  - destruct (option_value float "--boost" argv) as [b |].
    + rewrite bind_print, apply_audio_correction_eq, bind_returned.
      cbn [fst snd].
      match goal with
      | |- context [if ?b then _ else _] => destruct b
      end; repeat split; reflexivity.
    + repeat split; reflexivity.
Qed.

End MainFacts.

Lemma writes_write_events (l : list (Report * string)) :
  writes (write_events l) = l.
Proof.
  induction l as [| [k p] l IH]; simpl; [reflexivity | now f_equal].
Qed.

Lemma summaries_write_events (l : list (Report * string)) :
  summaries (write_events l) = [].
Proof. induction l as [| [k p] l IH]; simpl; trivial. Qed.

Lemma corrections_write_events (l : list (Report * string)) :
  corrections (write_events l) = [].
Proof. induction l as [| [k p] l IH]; simpl; trivial. Qed.

Lemma mkdirs_write_events (l : list (Report * string)) :
  mkdirs (write_events l) = [].
Proof. induction l as [| [k p] l IH]; simpl; trivial. Qed.

Section MainFolderFacts.

Variable float : string -> option Q.
Variable w : World.

Lemma main_folder_facts (argv : list string) :
  (2 <= List.length argv)%nat ->
  options_valid float argv ->
  let target := nth 1 argv "" in
  path_is_file w target = false ->
  path_is_dir w target = true ->
  exists results,
    outcome (analyze_folder float w target default_extensions 4)
      = inr results /\
    (discover w target default_extensions <> [] ->
     Permutation (map (@inr exn Result) results)
                 (map (fun f => outcome (analyze_audio_level float w f))
                      (discover w target default_extensions))) /\
    outcome (main float w argv) = inr tt /\
    writes (trace (main float w argv)) = reports_requested argv target /\
    summaries (trace (main float w argv)) =
      [(List.length (valid_results results),
        List.length (filter has_error results))] /\
    corrections (trace (main float w argv)) =
      folder_corrections target results
        (option_value float "--normalize" argv)
        (option_value float "--boost" argv) /\
    (option_value float "--normalize" argv = None ->
     option_value float "--boost" argv = None ->
     mkdirs (trace (main float w argv)) = []).
Proof.
  intros Hlen [Hn Hb] target Hfile Hdir.
  apply Nat.ltb_ge in Hlen.
  destruct (analyze_folder_events float w target default_extensions 4)
    as (t & results & Heq & Hev & Hperm); [lia |].
  exists results. rewrite Heq.
  split; [reflexivity |]. split; [now apply Hperm |].
  destruct (analysis_quiet t Hev) as (Q1 & Q2 & Q3 & Q4).
  unfold main. rewrite Hlen.
  rewrite (correction_option_valid _ _ _ _ Hn),
          (correction_option_valid _ _ _ _ Hb).
  rewrite !bind_ret. fold target. rewrite Hfile, Hdir, Heq.
  rewrite bind_returned. unfold print_summary. rewrite bind_print.
  set (proc :=
    match option_value float "--normalize" argv,
          option_value float "--boost" argv with
    | Some n, _ => process_corrections w results target "normalize" n
    | None, Some b => process_corrections w results target "boost" b
    | None, None => ret tt
    end).
  assert (Hproc : outcome proc = inr tt /\
                  writes (trace proc) = [] /\ summaries (trace proc) = [] /\
                  corrections (trace proc) =
                    folder_corrections target results
                      (option_value float "--normalize" argv)
                      (option_value float "--boost" argv) /\
                  (option_value float "--normalize" argv = None ->
                   option_value float "--boost" argv = None ->
                   mkdirs (trace proc) = [])).
  { subst proc. unfold folder_corrections.
    destruct (option_value float "--normalize" argv) as [n |];
      [| destruct (option_value float "--boost" argv) as [b |]].
    - destruct (process_corrections_events w results target "normalize" n)
        as [Ho Ht].
      destruct (correction_quiet _ Ht) as [W S].
      repeat split; trivial.
      + apply corrections_process_corrections.
      + discriminate.
    - destruct (process_corrections_events w results target "boost" b)
        as [Ho Ht].
      destruct (correction_quiet _ Ht) as [W S].
      repeat split; trivial.
      + apply corrections_process_corrections.
      + discriminate.
    - repeat split; reflexivity. }
  destruct Hproc as (P1 & P2 & P3 & P4 & P5).
  set (rest :=
    (if negb (in_argv "--no-html" argv)
     then tell (EvWrite Html (joinpath target "audio_report.html"))
     else ret tt) ;;
    (if in_argv "--csv" argv
     then tell (EvWrite Csv (joinpath target "audio_levels.csv"))
     else ret tt) ;;
    (if in_argv "--json" argv
     then tell (EvWrite Json (joinpath target "audio_levels.json"))
     else ret tt) ;;
    proc).
  assert (Hrest :
    rest = (write_events (reports_requested argv target) ++ trace proc,
            outcome proc)).
  { subst rest. unfold reports_requested.
    destruct (negb (in_argv "--no-html" argv));
      destruct (in_argv "--csv" argv); destruct (in_argv "--json" argv);
      repeat (rewrite bind_tell || rewrite bind_ret);
      unfold trace, outcome; cbn [fst snd app map write_events];
      try reflexivity; destruct proc; reflexivity. }
  rewrite Hrest.
  unfold trace, outcome in *. cbn [fst snd] in *.
  change (?a :: ?l ++ ?r) with ([a] ++ l ++ r).
  rewrite !writes_app, !summaries_app, !corrections_app, !mkdirs_app.
  rewrite Q1, Q2, Q3, Q4, P2, P3, P4.
  rewrite writes_write_events, summaries_write_events,
          corrections_write_events, mkdirs_write_events.
  cbn [app writes summaries corrections mkdirs runs flat_map filter].
  rewrite !app_nil_r.
  split; [exact P1 |]. repeat split.
  intros H1 H2. now apply P5.
Qed.

End MainFolderFacts.

Section MainProperties.

Variable float : string -> option Q.
Variable w : World.

Lemma neither_file_nor_folder (argv : list string) :
  (2 <= List.length argv)%nat ->
  options_valid float argv ->
  let target := nth 1 argv "" in
  path_is_file w target = false ->
  path_is_dir w target = false ->
  main float w argv = ([EvPrint (MsgPathNotFound target)], inl (SystemExit 1)).
Proof.
  intros Hlen [Hn Hb] target Hfile Hdir.
  apply Nat.ltb_ge in Hlen.
  unfold main. rewrite Hlen.
  rewrite (correction_option_valid _ _ _ _ Hn),
          (correction_option_valid _ _ _ _ Hb).
  rewrite !bind_ret. fold target. rewrite Hfile, Hdir. reflexivity.
Qed.

(** X8. With a valid [--boost] and no value for [--normalize], every
    corrective transcode [main] starts applies the boost value as it is:
    one transcode to [<stem>_boosted<suffix>] for a single measured file,
    those of [process_corrections] in mode "boost" for a folder. *)
Theorem boost_alone (argv : list string) (boost_arg : string)
        (boost_value : Q) :
  option_argument "--normalize" argv = None ->
  option_argument "--boost" argv = Some boost_arg ->
  float boost_arg = Some boost_value ->
  let target := nth 1 argv "" in
  (path_is_file w target = true ->
   corrections (trace (main float w argv)) =
   match outcome (analyze_audio_level float w target) with
   | inr (Measurement _ _ _ _ _ _ _) =>
       [Volume target boost_value
               (joinpath (path_parent target)
                         (path_stem target ++ "_boosted" ++
                          path_suffix target)%string)]
   | _ => []
   end) /\
  (path_is_file w target = false -> path_is_dir w target = true ->
   exists results,
     outcome (analyze_folder float w target default_extensions 4)
       = inr results /\
     corrections (trace (main float w argv)) =
       expected_corrections "boost" boost_value
         (correction_dir target "boost" boost_value) results /\
     gains (corrections (trace (main float w argv))) =
       map (fun _ => boost_value) (means results)).
Proof.
  intros Hn Hb Fb target.
  assert (Hlen : (2 <= List.length argv)%nat).
  { apply option_argument_length in Hb. apply Nat.ltb_ge in Hb. exact Hb. }
  assert (Hvalid : options_valid float argv).
  { split; intros a Ha; congruence. }
  assert (Vn : option_value float "--normalize" argv = None)
    by (unfold option_value; now rewrite Hn).
  assert (Vb : option_value float "--boost" argv = Some boost_value)
    by (unfold option_value; now rewrite Hb).
  split.
  - intro Hfile.
    destruct (main_file_facts float w argv Hlen Hvalid Hfile)
      as (_ & _ & _ & _ & Hc).
    fold target in Hc. rewrite Hc, Vn, Vb, analyze_audio_level_eq.
    unfold outcome. cbn [snd].
    destruct (measured float w target); reflexivity.
  - intros Hfile Hdir.
    destruct (main_folder_facts float w argv Hlen Hvalid Hfile Hdir)
      as (results & Hres & _ & _ & _ & _ & Hc & _).
    fold target in Hc, Hres. exists results. split; [exact Hres |].
    rewrite Hc, Vn, Vb. unfold folder_corrections.
    split; [reflexivity |]. apply gains_expected_corrections.
Qed.

(** X9. When neither [--normalize] nor [--boost] has a value on the
    command line, [main] starts no corrective transcode and creates no
    folder, whatever the target is. *)
Theorem no_option_no_correction (argv : list string) :
  option_argument "--normalize" argv = None ->
  option_argument "--boost" argv = None ->
  corrections (trace (main float w argv)) = [] /\
  mkdirs (trace (main float w argv)) = [].
Proof.
  intros Hn Hb.
  assert (Hvalid : options_valid float argv).
  { split; intros a Ha; congruence. }
  assert (Vn : option_value float "--normalize" argv = None)
    by (unfold option_value; now rewrite Hn).
  assert (Vb : option_value float "--boost" argv = None)
    by (unfold option_value; now rewrite Hb).
  destruct (le_lt_dec 2 (List.length argv)) as [Hlen | Hlen].
  - destruct (path_is_file w (nth 1 argv "")) eqn:Hfile.
    + destruct (main_file_facts float w argv Hlen Hvalid Hfile)
        as (_ & _ & _ & Hm & Hc).
      rewrite Hc, Hm, Vn, Vb. split; [| reflexivity].
      destruct (measured float w (nth 1 argv "")); reflexivity.
    + destruct (path_is_dir w (nth 1 argv "")) eqn:Hdir.
      * destruct (main_folder_facts float w argv Hlen Hvalid Hfile Hdir)
          as (results & _ & _ & _ & _ & _ & Hc & Hm).
        rewrite Hc, Vn, Vb. split; [reflexivity | now apply Hm].
      * rewrite (neither_file_nor_folder argv Hlen Hvalid Hfile Hdir).
        split; reflexivity.
  - apply Nat.ltb_lt in Hlen. unfold main. rewrite Hlen.
    split; reflexivity.
Qed.


(** X11. For a folder in which N files were found, the summary [main]
    prints counts every file once: the number of files analysed and the
    number of errors add up to N. *)
Theorem summary_counts_every_file (argv : list string) :
  (2 <= List.length argv)%nat ->
  options_valid float argv ->
  let target := nth 1 argv "" in
  path_is_file w target = false ->
  path_is_dir w target = true ->
  discover w target default_extensions <> [] ->
  exists analysed errors,
    summaries (trace (main float w argv)) = [(analysed, errors)] /\
    (analysed + errors)%nat =
      List.length (discover w target default_extensions).
Proof.
  intros Hlen Hvalid target Hfile Hdir Hne.
  destruct (main_folder_facts float w argv Hlen Hvalid Hfile Hdir)
    as (results & _ & Hperm & _ & _ & Hs & _).
  fold target in Hs, Hperm.
  eexists _, _. split; [exact Hs |].
  specialize (Hperm Hne). apply Permutation_length in Hperm.
  rewrite !length_map in Hperm. rewrite <- Hperm.
  unfold valid_results.
  rewrite Nat.add_comm. apply filter_length.
Qed.

(** X18. Between valid options, [main] returns normally when the target
    is a file, and exits with status 1, having run nothing, when the
    target is neither a file nor a folder. *)
Theorem main_exit_status (argv : list string) :
  (2 <= List.length argv)%nat ->
  options_valid float argv ->
  let target := nth 1 argv "" in
  (path_is_file w target = true -> outcome (main float w argv) = inr tt) /\
  (path_is_file w target = false -> path_is_dir w target = false ->
   outcome (main float w argv) = inl (SystemExit 1) /\
   runs (trace (main float w argv)) = []).
Proof.
  intros Hlen Hvalid target. split.
  - intro Hfile.
    now destruct (main_file_facts float w argv Hlen Hvalid Hfile) as (Ho & _).
  - intros Hfile Hdir.
    rewrite (neither_file_nor_folder argv Hlen Hvalid Hfile Hdir).
    split; reflexivity.
Qed.

End MainProperties.

(** ** The HTML report *)

Lemma dict_get_set_same {V} (d : list (string * V)) (key : string) (v : V) :
  dict_get (dict_set d key v) key = Some v.
Proof.
  induction d as [| [k v0] d IH]; simpl.
  - now rewrite String.eqb_refl.
  - destruct (String.eqb k key) eqn:E; simpl; rewrite E; [reflexivity | exact IH].
Qed.

Lemma dict_get_set_other {V} (d : list (string * V)) (key key' : string)
      (v : V) :
  key' <> key -> dict_get (dict_set d key v) key' = dict_get d key'.
Proof.
  intro Hne. induction d as [| [k v0] d IH]; simpl.
  - destruct (String.eqb key key') eqn:E; [| reflexivity].
    apply String.eqb_eq in E. congruence.
  - destruct (String.eqb k key) eqn:E; simpl.
    + apply String.eqb_eq in E. subst k.
      destruct (String.eqb key key') eqn:E'; [| reflexivity].
      apply String.eqb_eq in E'. congruence.
    + destruct (String.eqb k key'); [reflexivity | exact IH].
Qed.

Lemma map_M_ret {A B} (f : A -> M B) (g : A -> B) (l : list A) :
  (forall x, In x l -> f x = ret (g x)) ->
  map_M f l = ret (map g l).
Proof.
  induction l as [| x l IH]; intro H; simpl; [reflexivity |].
  rewrite (H x (or_introl eq_refl)), bind_ret, IH, bind_ret; [reflexivity |].
  intros y Hy. apply H. now right.
Qed.

Lemma valid_is_measurement (r : Result) :
  has_error r = false ->
  exists f c m mx l co e, r = Measurement f c m mx l co e.
Proof.
  destruct r as [f c m mx l co e | f err | err]; try discriminate.
  intros _. now exists f, c, m, mx, l, co, e.
Qed.

Lemma count_levels_returns (valid : list Result)
      (levels_count : list (string * nat)) :
  Forall (fun r => has_error r = false) valid ->
  exists counted,
    count_levels valid levels_count = ret counted /\
    forall level,
      dict_get_default counted level 0%nat =
      (dict_get_default levels_count level 0 +
       count_occ string_dec (map classification_of valid) level)%nat.
Proof.
  intro Hvalid. revert levels_count.
  induction Hvalid as [| r valid Hr _ IH]; intro levels_count.
  - exists levels_count. split; [reflexivity |]. intro level. simpl. lia.
  - destruct (valid_is_measurement r Hr) as (f & c & m & mx & l & co & e & ->).
    cbn [count_levels item_classification map classification_of count_occ].
    rewrite bind_ret.
    destruct (IH (dict_set levels_count l
                    (dict_get_default levels_count l 0 + 1)%nat))
      as (counted & Heq & Hcount).
    exists counted. split; [exact Heq |].
    intro level. rewrite Hcount. unfold dict_get_default at 1.
    destruct (string_dec l level) as [-> | Hne].
    + rewrite dict_get_set_same. lia.
    + rewrite dict_get_set_other by congruence.
      fold (dict_get_default levels_count level 0%nat). lia.
Qed.

Lemma distribution_returns (levels : list string)
      (levels_count : list (string * nat)) :
  (forall level, In level levels -> dict_get level_colors level <> None) ->
  exists items,
    distribution levels levels_count = ret items /\
    sum_nat (map dist_count items) =
      sum_nat (map (fun level => dict_get_default levels_count level 0%nat)
                   levels) /\
    Forall (fun item =>
              In (dist_level item) levels /\
              (0 < dist_count item)%nat /\
              dist_count item =
                dict_get_default levels_count (dist_level item) 0%nat /\
              dict_get level_colors (dist_level item) =
                Some (dist_color item) /\
              (30 <= dist_width item)%nat /\
              (dist_count item * 20 <= dist_width item)%nat) items.
Proof.
  unfold sum_nat.
  induction levels as [| level levels IH]; intro Hcolors;
    cbn [distribution map fold_right].
  - exists []. repeat split. constructor.
  - destruct IH as (items & Heq & Hsum & Hall).
    { intros l Hl. apply Hcolors. now right. }
    destruct (0 <? dict_get_default levels_count level 0)%nat eqn:E.
    + apply Nat.ltb_lt in E.
      unfold dict_item.
      destruct (dict_get level_colors level) as [c |] eqn:Ec.
      * rewrite bind_ret, Heq, bind_ret.
        eexists. split; [reflexivity |].
        split; [cbn [map fold_right dist_count]; now rewrite Hsum |].
        constructor.
        -- cbn [dist_level dist_count dist_color dist_width].
           repeat split; trivial; try lia. now left.
        -- eapply Forall_impl; [| exact Hall]. simpl. intuition.
      * exfalso. apply (Hcolors level); [now left | exact Ec].
    + apply Nat.ltb_ge in E. exists items.
      split; [exact Heq |]. split.
      * rewrite Hsum. lia.
      * eapply Forall_impl; [| exact Hall]. simpl. intuition.
Qed.



Lemma report_levels_coloured (level : string) :
  In level report_levels -> dict_get level_colors level <> None.
Proof.
  intro H. simpl in H.
  repeat (destruct H as [<- | H]; [discriminate |]). contradiction.
Qed.



Lemma error_items_raise (errors : list Result) (msg : string) :
  (forall e, In e errors -> has_error e = true) ->
  In (FolderError msg) errors ->
  map_M error_item errors = ([], inl (Error "'fichier'")).
Proof.
  intros Herr Hin.
  induction errors as [| e errors IH]; [contradiction |].
  destruct e as [f c m mx l co em | f err | err].
  - specialize (Herr _ (or_introl eq_refl)). discriminate.
  - cbn [map_M]. destruct Hin as [Hin | Hin]; [discriminate |].
    rewrite IH; trivial. intros e He. apply Herr. now right.
  - reflexivity.
Qed.

Lemma errors_have_error (results : list Result) :
  forall e, In e (filter has_error results) -> has_error e = true.
Proof. intros e He. now apply filter_In in He. Qed.

Lemma report_stats (valid : list Result) :
  Forall (fun r => has_error r = false) valid ->
  exists avg_mean min_mean max_mean counted,
    match valid with
    | [] => ret (0%Q, 0%Q, 0%Q, [])
    | _ =>
        means <- map_M item_niveau_moyen_db valid ;;
        let avg_mean :=
          (sum_of means / inject_Z (Z.of_nat (List.length means)))%Q in
        min_mean <- min_of means ;;
        max_mean <- max_of means ;;
        levels_count <- count_levels valid [] ;;
        ret (avg_mean, min_mean, max_mean, levels_count)
    end = ret (avg_mean, min_mean, max_mean, counted) /\
    forall level,
      dict_get_default counted level 0%nat =
      count_occ string_dec (map classification_of valid) level.
Proof.
  intro Hvalid.
  destruct valid as [| r0 valid0].
  - exists 0%Q, 0%Q, 0%Q, []. split; reflexivity.
  - pose (g := fun r : Result =>
                 match r with
                 | Measurement _ _ m _ _ _ _ => m
                 | _ => 0%Q
                 end).
    assert (Hmeans : map_M item_niveau_moyen_db (r0 :: valid0) =
                     ret (g r0 :: map g valid0)).
    { apply (map_M_ret _ g (r0 :: valid0)). intros r Hr.
      rewrite Forall_forall in Hvalid.
      destruct (valid_is_measurement r (Hvalid r Hr))
        as (f & c & m & mx & l & co & e & ->). reflexivity. }
    destruct (count_levels_returns (r0 :: valid0) [] Hvalid)
      as (counted & Hc & Hcount).
    eexists _, _, _, counted. split.
    + rewrite Hmeans, bind_ret. unfold min_of, max_of.
      rewrite !bind_ret, Hc, bind_ret. reflexivity.
    + intro level. rewrite Hcount. reflexivity.
Qed.

Lemma report_rows (valid : list Result) :
  Forall (fun r => has_error r = false) valid ->
  exists rows,
    map_M report_row valid = ret rows /\
    List.length rows = List.length valid /\
    Forall (fun row => (0 <= row_percent row)%Q /\
                       (row_percent row <= 100)%Q) rows.
Proof.
  intro Hvalid.
  pose (g := fun r : Result =>
               match r with
               | Measurement f _ m mx l co e =>
                   {| row_fichier := f; row_niveau_moyen_db := m;
                      row_percent := bar_percent m; row_color := co;
                      row_niveau_max_db := mx; row_emoji := e;
                      row_classification := l |}
               | _ =>
                   {| row_fichier := ""; row_niveau_moyen_db := 0;
                      row_percent := bar_percent 0; row_color := "";
                      row_niveau_max_db := 0; row_emoji := "";
                      row_classification := "" |}
               end).
  exists (map g valid). split; [| split; [apply length_map |]].
  - apply map_M_ret. intros r Hr.
    rewrite Forall_forall in Hvalid.
    destruct (valid_is_measurement r (Hvalid r Hr))
      as (f & c & m & mx & l & co & e & ->). reflexivity.
  - apply Forall_forall. intros row Hrow. apply in_map_iff in Hrow.
    destruct Hrow as (r & <- & _).
    destruct r; simpl; apply bar_percent_bounds.
Qed.

Section Report.

(** X16. [generate_html_report] fails with [KeyError: 'fichier'], before
    writing anything, as soon as the results hold a batch-level error -
    an entry with an [error] and no [fichier], which is what
    [analyze_folder] returns for a missing folder and for a folder where
    no file is found. *)
Theorem html_report_fails_on_batch_error :
  (forall (results : list Result) (msg folder_path output_path : string),
     In (FolderError msg) results ->
     generate_html_report results folder_path output_path =
       ([], inl (Error "'fichier'"))) /\
  (forall (float : string -> option Q) (w : World) (folder : string)
          (extensions : list string) (workers : Z) (output_path : string),
     path_is_dir w folder = false \/ discover w folder extensions = [] ->
     (results <- analyze_folder float w folder extensions workers ;;
      generate_html_report results folder output_path) =
       ([], inl (Error "'fichier'"))).
Proof.
  assert (H1 : forall (results : list Result)
                      (msg folder_path output_path : string),
             In (FolderError msg) results ->
             generate_html_report results folder_path output_path =
               ([], inl (Error "'fichier'"))).
  { intros results msg folder_path output_path Hin.
    unfold generate_html_report. cbv zeta.
    destruct (report_stats (valid_results results)
                (valid_results_valid results))
      as (avg & mn & mx & counted & Hstats & _).
    cbv zeta in Hstats. rewrite Hstats, bind_ret.
    destruct (distribution_returns report_levels counted
                report_levels_coloured) as (items & Hd & _).
    rewrite Hd, bind_ret.
    destruct (report_rows (valid_results results)
                (valid_results_valid results)) as (rows & Hr & _).
    rewrite Hr, bind_ret.
    rewrite (error_items_raise (filter has_error results) msg).
    - reflexivity.
    - apply errors_have_error.
    - apply filter_In. split; [exact Hin | reflexivity]. }
  split; [exact H1 |].
  intros float w folder extensions workers output_path Hcase.
  assert (Ha : exists msg,
             analyze_folder float w folder extensions workers =
               ret [FolderError msg]).
  { unfold analyze_folder.
    destruct (path_is_dir w folder) eqn:Hdir; simpl.
    - destruct Hcase as [Hcase | Hcase]; [discriminate |].
      rewrite Hcase. now eexists.
    - now eexists. }
  destruct Ha as [msg ->]. rewrite bind_ret.
  apply (H1 _ msg). now left.
Qed.

End Report.






Section ReportAfterAnalysis.

Variable float : string -> option Q.
Variable w : World.



End ReportAfterAnalysis.

(** ** Instances *)

Lemma boost_alone_witness :
  let w := sample_world ["a.mp4"; "b.mkv"] tool_ok [1]%nat in
  let argv := ["audio_level_analyzer.py"; "videos"; "--boost"; "10"] in
  (path_is_file w "videos" = true ->
   corrections (trace (main float_of_decimal w argv)) =
   match outcome (analyze_audio_level float_of_decimal w "videos") with
   | inr (Measurement _ _ _ _ _ _ _) =>
       [Volume "videos" 10
               (joinpath (path_parent "videos")
                         (path_stem "videos" ++ "_boosted" ++
                          path_suffix "videos")%string)]
   | _ => []
   end) /\
  (path_is_file w "videos" = false -> path_is_dir w "videos" = true ->
   exists results,
     outcome (analyze_folder float_of_decimal w "videos" default_extensions 4)
       = inr results /\
     corrections (trace (main float_of_decimal w argv)) =
       expected_corrections "boost" 10
         (correction_dir "videos" "boost" 10) results /\
     gains (corrections (trace (main float_of_decimal w argv))) =
       map (fun _ => 10%Q) (means results)).
Proof.
  intros w argv.
  apply (boost_alone float_of_decimal w argv "10" 10); reflexivity.
Defined.

Lemma no_option_no_correction_witness :
  let w := sample_world ["a.mp4"; "b.mkv"] tool_ok [1]%nat in
  let argv := ["audio_level_analyzer.py"; "videos"; "--csv"; "--boost"] in
  corrections (trace (main float_of_decimal w argv)) = [] /\
  mkdirs (trace (main float_of_decimal w argv)) = [].
Proof.
  intros w argv.
  apply (no_option_no_correction float_of_decimal w argv); reflexivity.
Defined.

Lemma sample_options_valid (argv : list string) :
  option_argument "--normalize" argv = None ->
  option_argument "--boost" argv = None ->
  options_valid float_of_decimal argv.
Proof. intros Hn Hb. split; intros a Ha; congruence. Defined.


Lemma summary_counts_every_file_witness :
  let w := sample_world ["a.mp4"; "b.mkv"; "notes.txt"] tool_ok [1]%nat in
  let argv := ["audio_level_analyzer.py"; "videos"] in
  exists analysed errors,
    summaries (trace (main float_of_decimal w argv)) = [(analysed, errors)] /\
    (analysed + errors)%nat =
      List.length (discover w "videos" default_extensions).
Proof.
  intros w argv.
  apply (summary_counts_every_file float_of_decimal w argv).
  - simpl. lia.
  - apply sample_options_valid; reflexivity.
  - reflexivity.
  - reflexivity.
  - vm_compute. discriminate.
Defined.

Lemma main_exit_status_witness :
  let w := sample_world ["a.mp4"; "b.mkv"] tool_ok [1]%nat in
  let argv := ["audio_level_analyzer.py"; "videos/a.mp4"] in
  (path_is_file w "videos/a.mp4" = true ->
   outcome (main float_of_decimal w argv) = inr tt) /\
  (path_is_file w "videos/a.mp4" = false ->
   path_is_dir w "videos/a.mp4" = false ->
   outcome (main float_of_decimal w argv) = inl (SystemExit 1) /\
   runs (trace (main float_of_decimal w argv)) = []).
Proof.
  intros w argv.
  apply (main_exit_status float_of_decimal w argv).
  - simpl. lia.
  - apply sample_options_valid; reflexivity.
Defined.


